(** * event-processor: the per-message pipeline of [cmd/event-processor/main.go]

    A shallow embedding of the Lambda's message pipeline: the attribute
    codec ([toAttr], [toAttrMap]), the schema cache ([loadSchema]), the
    envelope validator ([validate]), the idempotent ledger writer
    ([persistEventOnce]) and the orchestration ([handleRecord], [handler]).

    The Go program talks to collaborators whose code is not part of the
    repository: the DynamoDB service, the JSON decoder, the JSON-Schema
    library, the embedded schema files, the wall clock and the number
    formatter of [fmt].  They appear here as the fields of two type classes
    ([Numeric] and [Collaborators]); the DynamoDB transaction is given an
    executable model in [Module Dynamo], and the tables are those of
    [infra/main.tf], with the time to live that file enables on them
    ([expire]).

    Layout: the Go runtime ([Module Go]), the store ([Module Dynamo]), the
    program, the vocabulary of the statements and a small deployment for
    the scenarios ([Module Processor]); then the properties, each followed
    or closed by the scenario that exercises it.

    Beside the pipeline the development covers the start-up of the Lambda
    ([getEnv], [mustInit], with [strconv.Atoi]) and the seeder Lambda of
    [cmd/seeder/main.go] ([Module Seeder]), which publishes sample
    envelopes to the queue the pipeline reads. *)

From stdpp Require Import gmap strings list fin_maps pretty.
From Stdlib Require Import ZArith Lia.

Local Set Warnings "-register-all".

(* ===================================================================== *)
(** * Go runtime: strings, errors, machine integers, time                 *)
(* ===================================================================== *)
Module Go.

(** [strings.Contains(s, substr)]. *)
Fixpoint strings_Contains (s substr : string) : bool :=
  String.prefix substr s ||
  match s with
  | EmptyString => false
  | String _ s' => strings_Contains s' substr
  end.

(** [strings.Join(elems, sep)]. *)
Fixpoint strings_Join (elems : list string) (sep : string) : string :=
  match elems with
  | [] => ""
  | [e] => e
  | e :: rest => e +:+ sep +:+ strings_Join rest sep
  end.

(** One entry of [TransactionCanceledException.CancellationReasons]; the
    code is a [*string] and may be nil. *)
Record CancellationReason := { Code : option string }.

(** The dynamic type of one link of an error chain, as far as
    [errors.As] in [persistEventOnce] can tell them apart. *)
Inductive errNode :=
  | TransactionCanceledException (CancellationReasons : list CancellationReason)
  | ConditionalCheckFailedException
  | errorString.

(** A Go [error]: the chain walked by [errors.As] (outermost first) and the
    text returned by [Error()]. *)
Record error := { chain : list errNode; Error : string }.

(** [errors.As(err, &tce)] for [*TransactionCanceledException]: the first
    link of that type. *)
Fixpoint errors_As_tce (c : list errNode) : option (list CancellationReason) :=
  match c with
  | [] => None
  | TransactionCanceledException rs :: _ => Some rs
  | _ :: c' => errors_As_tce c'
  end.

(** [errors.As(err, &cfe)] for [*ConditionalCheckFailedException]. *)
Fixpoint errors_As_cfe (c : list errNode) : bool :=
  match c with
  | [] => false
  | ConditionalCheckFailedException :: _ => true
  | _ :: c' => errors_As_cfe c'
  end.

(** [fmt.Errorf(text)] without a wrapped error. *)
Definition errors_New (text : string) : error :=
  {| chain := [errorString]; Error := text |}.

(** [fmt.Errorf(prefix + "%w", err)]. *)
Definition fmt_Errorf_w (prefix : string) (err : error) : error :=
  {| chain := errorString :: chain err; Error := prefix +:+ Error err |}.

(** Two's-complement wrap-around of Go's [int64] arithmetic. *)
Definition wrap64 (z : Z) : Z := ((z + 2 ^ 63) `mod` 2 ^ 64 - 2 ^ 63)%Z.

(** A [time.Time] as nanoseconds since the Unix epoch; a [time.Duration]
    is an [int64] count of nanoseconds. *)
Definition Time := Z.
Definition Hour : Z := 3600000000000.

(** [time.Duration(days) * 24 * time.Hour], in [int64]. *)
Definition days_Duration (days : Z) : Z := wrap64 (wrap64 (days * 24) * Hour).

Definition Time_Add (t : Time) (d : Z) : Time := (t + d)%Z.
Definition Time_Unix (t : Time) : Z := (t `div` 1000000000)%Z.

(** [fmt.Sprintf("%d", n)] and [fmt.Sprintf("%v", n)] for an integer. *)
Definition fmt_d (n : Z) : string := pretty n.

End Go.

(* ===================================================================== *)
(** * The DynamoDB collaborator                                           *)
(* ===================================================================== *)
Module Dynamo.
Import Go.

(** [dynatypes.AttributeValue]: the members the program builds. *)
Inductive AttributeValue : Type :=
  | AttributeValueMemberS (Value : string)
  | AttributeValueMemberN (Value : string)
  | AttributeValueMemberBOOL (Value : bool)
  | AttributeValueMemberNULL (Value : bool)
  | AttributeValueMemberL (Value : list AttributeValue)
  | AttributeValueMemberM (Value : gmap string AttributeValue).

Abbreviation Item := (gmap string AttributeValue).

(** A table as [infra/main.tf] declares it: the names of its key attributes
    (hash key, then the range key when there is one; all of type S) and its
    items by key value. *)
Record Table := {
  KeySchema : list string;
  Items : gmap (list string) Item
}.

Abbreviation DB := (gmap string Table).

(** The only condition the program sends. *)
Inductive ConditionExpression :=
  | attribute_not_exists (attr : string).

(** [dynatypes.Put] inside a [TransactWriteItem]. *)
Record Put := {
  TableName : string;
  PutItem : Item;
  Condition : ConditionExpression
}.

Abbreviation TransactWriteItemsInput := (list Put).

(** The key of an item under a key schema; [None] when a key attribute is
    missing or is not a string. *)
Definition key_attr (it : Item) (a : string) : option string :=
  match it !! a with
  | Some (AttributeValueMemberS s) => Some s
  | _ => None
  end.

Definition item_key (ks : list string) (it : Item) : option (list string) :=
  mapM (key_attr it) ks.

(** A condition is evaluated against the item currently stored under the
    key of the item being put. *)
Definition eval_condition (c : ConditionExpression) (existing : option Item) : bool :=
  match c, existing with
  | attribute_not_exists _, None => true
  | attribute_not_exists a, Some it =>
      match it !! a with None => true | Some _ => false end
  end.

(** What the service finds for one operation of a transaction: the key the
    item goes to and whether its condition holds there, or a malformed
    request. *)
Inductive PutCheck :=
  | Checked (key : list string) (holds : bool)
  | UnknownTable
  | BadKey.

Definition check_put (db : DB) (p : Put) : PutCheck :=
  match db !! TableName p with
  | None => UnknownTable
  | Some tbl =>
      match item_key (KeySchema tbl) (PutItem p) with
      | None => BadKey
      | Some k => Checked k (eval_condition (Condition p) (Items tbl !! k))
      end
  end.

Definition apply_put (db : DB) (p : Put) : DB :=
  match db !! TableName p with
  | None => db
  | Some tbl =>
      match item_key (KeySchema tbl) (PutItem p) with
      | None => db
      | Some k =>
          <[TableName p := {| KeySchema := KeySchema tbl;
                              Items := <[k := PutItem p]> (Items tbl) |}]> db
      end
  end.

Definition is_unknown_table (c : PutCheck) : bool :=
  match c with UnknownTable => true | _ => false end.

Definition is_bad_key (c : PutCheck) : bool :=
  match c with BadKey => true | _ => false end.

Definition condition_holds (c : PutCheck) : bool :=
  match c with Checked _ holds => holds | _ => false end.

(** The item an operation addresses: table name and key. *)
Definition target (db : DB) (p : Put) : option (string * list string) :=
  match check_put db p with
  | Checked k _ => Some (TableName p, k)
  | _ => None
  end.

Definition reason_of (c : PutCheck) : CancellationReason :=
  match c with
  | Checked _ false => {| Code := Some "ConditionalCheckFailed" |}
  | _ => {| Code := Some "None" |}
  end.

Definition reason_text (r : CancellationReason) : string :=
  match Code r with Some c => c | None => "" end.

(** The error of a transaction cancelled by its conditions. *)
Definition canceled (checks : list PutCheck) : error :=
  let rs := reason_of <$> checks in
  {| chain := [errorString; TransactionCanceledException rs];
     Error := "operation error DynamoDB: TransactWriteItems, TransactionCanceledException: Transaction cancelled, please refer cancellation reasons for specific reasons ["
              +:+ strings_Join (reason_text <$> rs) ", " +:+ "]" |}.

Definition ResourceNotFoundException : error :=
  errors_New "operation error DynamoDB: TransactWriteItems, ResourceNotFoundException: Requested resource not found".

Definition ValidationException : error :=
  errors_New "operation error DynamoDB: TransactWriteItems, ValidationException: One or more parameter values were invalid".

(** [TransactWriteItems]: all-or-nothing.  An infrastructure failure
    ([fault]: throttling, network, ...) leaves the store unchanged; so do a
    malformed request (unknown table, item without its key, two operations
    on one item) and a failed condition; only when every condition holds
    are all the items written. *)
Definition TransactWriteItems (fault : option error) (db : DB)
    (input : TransactWriteItemsInput) : DB * option error :=
  match fault with
  | Some e => (db, Some e)
  | None =>
      let checks := check_put db <$> input in
      if existsb is_unknown_table checks then (db, Some ResourceNotFoundException)
      else if existsb is_bad_key checks then (db, Some ValidationException)
      else if negb (bool_decide (NoDup (omap (target db) input)))
      then (db, Some ValidationException)
      else if forallb condition_holds checks then (foldl apply_put db input, None)
      else (db, Some (canceled checks))
  end.

End Dynamo.

(* ===================================================================== *)
(** * The event processor ([cmd/event-processor/main.go])                 *)
(* ===================================================================== *)
Module Processor.
Import Go Dynamo.

(** Go's [float64], the test for a finite value (neither NaN nor an
    infinity) and the rendering by [fmt.Sprintf("%v", f)]. *)
Class Numeric := {
  float64 : Type;
  finite : float64 → bool;
  fmt_v_float64 : float64 → string
}.

Section values.
Context `{num : Numeric}.

(** A Go value of type [any], by the cases of the type switch in [toAttr].
    [other_value] stands for every other dynamic type and carries
    [string(b)] for [b, _ := json.Marshal(t)].  A slice or a map held in an
    [any] is not nil: [encoding/json] builds none, and decodes [null] to
    the nil interface, [nil_value]. *)
Inductive any : Type :=
  | nil_value
  | string_value (t : string)
  | bool_value (t : bool)
  | float64_value (t : float64)
  | int_value (t : Z)
  | int64_value (t : Z)
  | int32_value (t : Z)
  | slice_value (t : list any)
  | map_value (t : gmap string any)
  | other_value (marshalled : string).

(** [toAttr] converts an arbitrary Go value into a DynamoDB AttributeValue. *)
Fixpoint toAttr (v : any) : AttributeValue :=
  match v with
  | nil_value => AttributeValueMemberNULL true
  | string_value t => AttributeValueMemberS t
  | bool_value t => AttributeValueMemberBOOL t
  | float64_value t => AttributeValueMemberN (fmt_v_float64 t)
  | int_value t | int64_value t | int32_value t => AttributeValueMemberN (fmt_d t)
  | slice_value t => AttributeValueMemberL (toAttr <$> t)
  | map_value t => AttributeValueMemberM (toAttr <$> t)
  | other_value b => AttributeValueMemberS b
  end.

(** A Go [map[string]any] where it can be nil: [None] is the nil map. *)
Definition entries (m : option (gmap string any)) : gmap string any :=
  default ∅ m.

(** [toAttrMap] converts a Go [map[string]any] to a DynamoDB attribute map;
    ranging over the nil map does nothing, and [out] is never nil. *)
Definition toAttrMap (m : option (gmap string any)) : Item :=
  toAttr <$> entries m.



(** The event contract consumed from SQS.  [Payload] is nil when the body
    has no payload or gives it as [null]. *)
Record Envelope := {
  TenantID : string;
  EventID : string;
  EventType : string;
  Route : string;
  Payload : option (gmap string any);
  CreatedAt : string
}.

End values.

(** [events.SQSMessage], of which the program reads the body only. *)
Record SQSMessage := { Body : string }.

(** Runtime configuration loaded from environment variables. *)
Record AppConfig := {
  EventsTable : string;
  IdemTable : string;
  Region : string;
  EventsTTLDays : Z;
  IdemTTLDays : Z
}.

(** The collaborators of the pipeline.  [time_Now n] is the [n]-th reading
    of the wall clock and [store_fault n] the infrastructure failure, if
    any, that meets the [n]-th request sent to the store. *)
Class Collaborators `{num : Numeric} := {
  Schema : Type;
  ResultError : Type;
  ResultError_String : ResultError → string;
  FS_ReadFile : string → string + error;
  gojsonschema_NewSchema : string → Schema + error;
  Schema_Validate : Schema → option (gmap string any) → list ResultError + error;
  json_Unmarshal : string → Envelope + error;
  time_Now : nat → Time;
  Format_RFC3339Nano : Time → string;
  store_fault : nat → option error
}.

Declare Scope M_scope.
Delimit Scope M_scope with M.

Section pipeline.
Context `{col : Collaborators}.

(** What the program prints: the line of [fmt.Printf] and the lines of
    [log.Printf], by their arguments. *)
Inductive LogLine :=
  | Print_env (env : Envelope)
  | Log_duplicate (tenant_id event_id type : string)
  | Log_processed_invalid (status reason tenant_id event_id type : string)
  | Log_processed (status tenant_id event_id type : string)
  | Log_record_failed (err : error).

(** Entries into the validator and calls through [writeEventOnce], kept
    beside the program state so that a theorem can say that a component
    did not run. *)
Inductive Call :=
  | Call_validate (env : Envelope)
  | Call_writeEventOnce (env : Envelope) (status reason : string).

(** The package-level variables ([cfg], [schemas], the tables behind
    [dbClient]) and the world around them. *)
Record World := {
  cfg : AppConfig;
  schemas_byType : gmap string Schema;
  db : DB;
  clock : nat;
  requests : nat;
  log : list LogLine;
  calls : list Call
}.

(** The state monad of the pipeline. *)
Definition M (A : Type) : Type := World → A * World.

Definition ret {A} (a : A) : M A := λ σ, (a, σ).

Definition bind {A B} (m : M A) (k : A → M B) : M B := λ σ,
  let '(a, σ') := m σ in k a σ'.

Notation "x ← m ; k" := (bind m (λ x, k))
  (at level 20, m at level 100, k at level 200, only parsing) : M_scope.
Notation "' x ← m ; k" := (bind m (λ x, k))
  (at level 20, x pattern, m at level 100, k at level 200, only parsing) : M_scope.
Notation "m ;; k" := (bind m (λ _, k))
  (at level 100, k at level 200, only parsing, right associativity) : M_scope.
Local Open Scope M_scope.

Definition get_cfg : M AppConfig := λ σ, (cfg σ, σ).

Definition get_schemas : M (gmap string Schema) := λ σ, (schemas_byType σ, σ).

Definition put_schema (eventType : string) (schema : Schema) : M unit := λ σ,
  (tt, {| cfg := cfg σ; schemas_byType := <[eventType := schema]> (schemas_byType σ);
          db := db σ; clock := clock σ; requests := requests σ;
          log := log σ; calls := calls σ |}).

(** [time.Now().UTC()]. *)
Definition Now : M Time := λ σ,
  (time_Now (clock σ),
   {| cfg := cfg σ; schemas_byType := schemas_byType σ; db := db σ;
      clock := S (clock σ); requests := requests σ;
      log := log σ; calls := calls σ |}).

Definition print (l : LogLine) : M unit := λ σ,
  (tt, {| cfg := cfg σ; schemas_byType := schemas_byType σ; db := db σ;
          clock := clock σ; requests := requests σ;
          log := log σ ++ [l]; calls := calls σ |}).

Definition enter (c : Call) : M unit := λ σ,
  (tt, {| cfg := cfg σ; schemas_byType := schemas_byType σ; db := db σ;
          clock := clock σ; requests := requests σ;
          log := log σ; calls := calls σ ++ [c] |}).

(** [dbClient.TransactWriteItems(ctx, input)]. *)
Definition dbClient_TransactWriteItems (input : TransactWriteItemsInput)
    : M (option error) := λ σ,
  let '(db', err) := TransactWriteItems (store_fault (requests σ)) (db σ) input in
  (err,
   {| cfg := cfg σ; schemas_byType := schemas_byType σ; db := db';
      clock := clock σ; requests := S (requests σ);
      log := log σ; calls := calls σ |}).

Definition S_ (s : string) : AttributeValue := AttributeValueMemberS s.
Definition N_ (s : string) : AttributeValue := AttributeValueMemberN s.

(** The expiry written under ["ttl"]:
    [time.Now().UTC().Add(time.Duration(days) * 24 * time.Hour).Unix()]. *)
Definition expiry (now : Time) (days : Z) : Z :=
  Time_Unix (Time_Add now (days_Duration days)).

(** "Build idempotency item". *)
Definition build_idem (env : Envelope) : M Item :=
  let pk := TenantID env +:+ "#" +:+ EventID env in
  t ← Now;
  let idem : Item :=
    <["pk" := S_ pk]>
    (<["created_at" := S_ (Format_RFC3339Nano t)]>
    (<["event_type" := S_ (EventType env)]> ∅)) in
  c ← get_cfg;
  if decide (0 < IdemTTLDays c)%Z then
    t' ← Now;
    ret (<["ttl" := N_ (fmt_d (expiry t' (IdemTTLDays c)))]> idem)
  else ret idem.

(** The [created] of "Build event item". *)
Definition created_of (env : Envelope) : M string :=
  if decide (CreatedAt env = "") then
    t ← Now; ret (Format_RFC3339Nano t)
  else ret (CreatedAt env).

(** "Build event item". *)
Definition build_evt (env : Envelope) (status reason : string) : M Item :=
  created ← created_of env;
  let sk := created +:+ "#" +:+ EventID env in
  let evt : Item :=
    <["tenant_id" := S_ (TenantID env)]>
    (<["sk" := S_ sk]>
    (<["event_type" := S_ (EventType env)]>
    (<["status" := S_ status]>
    (<["payload" := AttributeValueMemberM (toAttrMap (Payload env))]>
    (<["retries" := N_ "0"]>
    (<["tenant_id_created_at" := S_ (TenantID env +:+ "#" +:+ created)]> ∅)))))) in
  let evt := if decide (Route env = "") then evt else <["route" := S_ (Route env)]> evt in
  let evt := if decide (reason = "") then evt else <["reason" := S_ reason]> evt in
  c ← get_cfg;
  if decide (0 < EventsTTLDays c)%Z then
    t ← Now;
    ret (<["ttl" := N_ (fmt_d (expiry t (EventsTTLDays c)))]> evt)
  else ret evt.

(** The two conditional puts of the transaction. *)
Definition transact_input (c : AppConfig) (idem evt : Item) : TransactWriteItemsInput :=
  [ {| TableName := IdemTable c; PutItem := idem;
       Condition := attribute_not_exists "pk" |};
    {| TableName := EventsTable c; PutItem := evt;
       Condition := attribute_not_exists "sk" |} ].

(** "If any reason is ConditionalCheckFailed -> treat as duplicate". *)
Definition has_ConditionalCheckFailed (rs : list CancellationReason) : bool :=
  existsb (λ r, match Code r with
                | Some c => bool_decide (c = "ConditionalCheckFailed")
                | None => false
                end) rs.

(** The error handling after [TransactWriteItems]: which failures count as
    a duplicate. *)
Definition treated_as_duplicate (err : error) : bool :=
  match errors_As_tce (chain err) with
  | Some rs =>
      has_ConditionalCheckFailed rs
      || errors_As_cfe (chain err)
      || strings_Contains (Error err) "ConditionalCheckFailed"
  | None =>
      errors_As_cfe (chain err)
      || strings_Contains (Error err) "ConditionalCheckFailed"
  end.

Definition outcome (err : option error) : bool * option error :=
  match err with
  | Some e => if treated_as_duplicate e then (false, None) else (false, Some e)
  | None => (true, None)
  end.

(** [persistEventOnce] writes both the idempotency record and the event
    item atomically. *)
Definition persist_request (env : Envelope) (status reason : string)
    : M TransactWriteItemsInput :=
  idem ← build_idem env;
  evt ← build_evt env status reason;
  c ← get_cfg;
  ret (transact_input c idem evt).

Definition persistEventOnce (env : Envelope) (status reason : string)
    : M (bool * option error) :=
  input ← persist_request env status reason;
  err ← dbClient_TransactWriteItems input;
  ret (outcome err).

(** [loadSchema] retrieves and compiles the JSON Schema for the given event
    type from the embedded schemas filesystem and caches the result. *)
Definition loadSchema (eventType : string) : M (Schema + error) :=
  byType ← get_schemas;
  match byType !! eventType with
  | Some s => ret (inl s)
  | None =>
      let file := eventType +:+ ".json" in
      match FS_ReadFile file with
      | inr err =>
          ret (inr (fmt_Errorf_w ("embed read schema " +:+ file +:+ ": ") err))
      | inl b =>
          match gojsonschema_NewSchema b with
          | inr err => ret (inr (fmt_Errorf_w "compile schema: " err))
          | inl schema => put_schema eventType schema;; ret (inl schema)
          end
      end
  end.

(** [res.Valid()] of gojsonschema: no error was collected. *)
Definition Result_Valid (res : list ResultError) : bool :=
  match res with [] => true | _ => false end.

(** [validate] checks the Envelope payload against its JSON Schema. *)
Definition validate (env : Envelope) : M (bool * string) :=
  enter (Call_validate env);;
  r ← loadSchema (EventType env);
  match r with
  | inr err => ret (false, "schema load error: " +:+ Error err)
  | inl schema =>
      match Schema_Validate schema (Payload env) with
      | inr err => ret (false, Error err)
      | inl res =>
          if negb (Result_Valid res)
          then ret (false, strings_Join (ResultError_String <$> res) "; ")
          else ret (true, "")
      end
  end.

Section handling.
(** [writeEventOnce], the indirection the tests stub. *)
Variable writeEventOnce : Envelope → string → string → M (bool * option error).

(** [handleRecord] processes a single SQS message. *)
Definition handleRecord (rec : SQSMessage) : M (option error) :=
  match json_Unmarshal (Body rec) with
  | inr err => ret (Some (fmt_Errorf_w "invalid JSON: " err))
  | inl env =>
      print (Print_env env);;
      if decide (TenantID env = "" ∨ EventID env = "" ∨ EventType env = "")
      then ret (Some (errors_New "missing required envelope fields"))
      else
        '(valid, reason) ← validate env;
        let status := if valid then "READY" else "INVALID" in
        enter (Call_writeEventOnce env status reason);;
        '(written, err) ← writeEventOnce env status reason;
        match err with
        | Some e => ret (Some (fmt_Errorf_w "persist error: " e))
        | None =>
            if negb written then
              print (Log_duplicate (TenantID env) (EventID env) (EventType env));;
              ret None
            else
              (if decide (status = "INVALID")
               then print (Log_processed_invalid status reason (TenantID env)
                             (EventID env) (EventType env))
               else print (Log_processed status (TenantID env) (EventID env)
                             (EventType env)));;
              ret None
        end
  end.

(** [handler] is the entry point for SQS-triggered invocations. *)
Fixpoint handler (records : list SQSMessage) : M (option error) :=
  match records with
  | [] => ret None
  | rec :: rest =>
      r ← handleRecord rec;
      match r with
      | Some err => print (Log_record_failed err);; ret (Some err)
      | None => handler rest
      end
  end.

(** The part of [handleRecord] between decoding and the call of the
    writer: what the writer is called with, and in which state. *)
Definition writer_arguments (env : Envelope) : M (string * string) :=
  print (Print_env env);;
  '(valid, reason) ← validate env;
  let status := if valid then "READY" else "INVALID" in
  enter (Call_writeEventOnce env status reason);;
  ret (status, reason).

(** Processing a batch in delivery order when no message fails: the state
    it ends in, or [None] as soon as one message fails. *)
Fixpoint succeed_all (records : list SQSMessage) (σ : World) : option World :=
  match records with
  | [] => Some σ
  | rec :: rest =>
      match handleRecord rec σ with
      | (None, σ') => succeed_all rest σ'
      | (Some _, _) => None
      end
  end.

End handling.

(** ** The vocabulary of the statements *)

(** Only the clock has been read between two worlds. *)
Definition only_clock (σ σ' : World) : Prop :=
  cfg σ' = cfg σ ∧ schemas_byType σ' = schemas_byType σ ∧ db σ' = db σ ∧
  requests σ' = requests σ ∧ log σ' = log σ ∧ calls σ' = calls σ.

(** The items of a table, by its name. *)
Definition table_items (d : DB) (name : string) : gmap (list string) Item :=
  match d !! name with
  | Some tbl => Items tbl
  | None => ∅
  end.

(** The deduplication records and the ledger records. *)
Definition dedup (σ : World) : gmap (list string) Item :=
  table_items (db σ) (IdemTable (cfg σ)).

Definition ledger (σ : World) : gmap (list string) Item :=
  table_items (db σ) (EventsTable (cfg σ)).

(** The tables of [infra/main.tf]: the idempotency table has the hash key
    [pk], the events table the hash key [tenant_id] and the range key
    [sk]; the configuration names the two, and they are two tables. *)
Definition provisioned (σ : World) : Prop :=
  IdemTable (cfg σ) ≠ EventsTable (cfg σ) ∧
  (∃ tbl, db σ !! IdemTable (cfg σ) = Some tbl ∧ KeySchema tbl = ["pk"]) ∧
  (∃ tbl, db σ !! EventsTable (cfg σ) = Some tbl ∧
          KeySchema tbl = ["tenant_id"; "sk"]).

(** Every stored item carries the key it is stored under. *)
Definition well_keyed (d : DB) : Prop :=
  ∀ name tbl k it,
    d !! name = Some tbl → Items tbl !! k = Some it →
    item_key (KeySchema tbl) it = Some k.

(** The worlds that calls of [persistEventOnce] lead to, with the
    envelopes of the calls in order; status, reason and the answers of the
    store are arbitrary.  The store changes through the writer only. *)
Inductive later : World → list Envelope → World → Prop :=
  | later_now σ : later σ [] σ
  | later_call σ env status reason r σ1 envs σ2 :
      persistEventOnce env status reason σ = (r, σ1) →
      later σ1 envs σ2 →
      later σ (env :: envs) σ2.

(** Two envelopes name the same event of the same tenant. *)
Definition same_event (env env' : Envelope) : Prop :=
  TenantID env' = TenantID env ∧ EventID env' = EventID env.

(** A store failure that reports a failed precondition, by the type of the
    error: a cancelled transaction with a [ConditionalCheckFailed] reason,
    or a [ConditionalCheckFailedException]. *)
Definition precondition_failure (err : error) : bool :=
  match errors_As_tce (chain err) with
  | Some rs => has_ConditionalCheckFailed rs
  | None => false
  end || errors_As_cfe (chain err).

(** The schema of an event type as the repository gives it: the compiled
    document, or the failure [loadSchema] reports when the type is not in
    the cache. *)
Definition schema_of (eventType : string) : Schema + error :=
  let file := eventType +:+ ".json" in
  match FS_ReadFile file with
  | inr err => inr (fmt_Errorf_w ("embed read schema " +:+ file +:+ ": ") err)
  | inl b =>
      match gojsonschema_NewSchema b with
      | inr err => inr (fmt_Errorf_w "compile schema: " err)
      | inl schema => inl schema
      end
  end.

(** What the validator answers for an envelope, as a function of the
    schema repository and the validation library. *)
Definition verdict (env : Envelope) : bool * string :=
  match schema_of (EventType env) with
  | inr err => (false, "schema load error: " +:+ Error err)
  | inl schema =>
      match Schema_Validate schema (Payload env) with
      | inr err => (false, Error err)
      | inl res =>
          if Result_Valid res then (true, "")
          else (false, strings_Join (ResultError_String <$> res) "; ")
      end
  end.

(** The cache holds compiled schema documents and nothing else. *)
Definition cache_ok (σ : World) : Prop :=
  ∀ eventType schema,
    schemas_byType σ !! eventType = Some schema →
    schema_of eventType = inl schema.

End pipeline.

(** ** A small deployment, for the scenarios *)

(** Numbers by the text [%v] prints for them: a float64 is named by that
    text (12.5, 1e+06), so printing is the identity.  A text that [%v]
    never prints, such as 1000000, names no float64. *)
Definition text_numeric : Numeric :=
  {| float64 := string; finite := λ _, true; fmt_v_float64 := λ t, t |}.

(** One embedded schema document, [user.created.json], listing the
    required fields. *)
Definition demo_ReadFile (file : string) : string + error :=
  if decide (file = "user.created.json") then inl "id email"
  else inr (errors_New ("open " +:+ file +:+ ": file does not exist")).

Definition demo_NewSchema (b : string) : list string + error :=
  inl (String.words b).

Definition demo_Validate (schema : list string)
    (payload : option (gmap string (any (num := text_numeric))))
    : list string + error :=
  inl (filter (λ field, entries payload !! field = None) schema).

Definition demo_ResultError_String (field : string) : string :=
  "(root): " +:+ field +:+ " is required".

Definition payload_A : gmap string (any (num := text_numeric)) :=
  <["id" := string_value "123"]>
  (<["email" := string_value "user@example.com"]> ∅).

Definition payload_B : gmap string (any (num := text_numeric)) :=
  <["id" := string_value "123"]> ∅.

Definition envelope_A : Envelope (num := text_numeric) :=
  {| TenantID := "t1"; EventID := "e1"; EventType := "user.created";
     Route := ""; Payload := Some payload_A; CreatedAt := "" |}.

Definition envelope_B : Envelope (num := text_numeric) :=
  {| TenantID := "t1"; EventID := "e2"; EventType := "user.created";
     Route := ""; Payload := Some payload_B; CreatedAt := "" |}.

Definition envelope_D : Envelope (num := text_numeric) :=
  {| TenantID := "t1"; EventID := "e3"; EventType := "order.shipped";
     Route := "orders"; Payload := Some payload_A;
     CreatedAt := "2024-05-01T10:00:00Z" |}.

Definition envelope_M : Envelope (num := text_numeric) :=
  {| TenantID := "t1"; EventID := ""; EventType := "user.created";
     Route := ""; Payload := Some payload_A; CreatedAt := "" |}.

Definition body_A : string :=
  "{tenant_id:t1,event_id:e1,event_type:user.created,payload:{id:123,email:user@example.com}}".
Definition body_B : string :=
  "{tenant_id:t1,event_id:e2,event_type:user.created,payload:{id:123}}".
Definition body_D : string :=
  "{tenant_id:t1,event_id:e3,event_type:order.shipped,route:orders,payload:{id:123,email:user@example.com},created_at:2024-05-01T10:00:00Z}".
Definition body_M : string :=
  "{tenant_id:t1,event_type:user.created,payload:{id:123,email:user@example.com}}".

Definition demo_Unmarshal (body : string) : Envelope (num := text_numeric) + error :=
  if decide (body = body_A) then inl envelope_A
  else if decide (body = body_B) then inl envelope_B
  else if decide (body = body_D) then inl envelope_D
  else if decide (body = body_M) then inl envelope_M
  else inr (errors_New "invalid character 'o' in literal null (expecting 'u')").

(** The deployment: the clock starts at an instant and advances by one
    nanosecond per reading; instants are printed as their count. *)
Definition demo (fault : nat → option error) : Collaborators (num := text_numeric) :=
  {| Schema := list string;
     ResultError := string;
     ResultError_String := demo_ResultError_String;
     FS_ReadFile := demo_ReadFile;
     gojsonschema_NewSchema := demo_NewSchema;
     Schema_Validate := demo_Validate;
     json_Unmarshal := demo_Unmarshal;
     time_Now := λ n, (1714557600000000000 + Z.of_nat n)%Z;
     Format_RFC3339Nano := λ t, pretty t;
     store_fault := fault |}.

Definition no_fault : nat → option error := λ _, None.

(** The defaults of the README: the ledger never expires, deduplication
    records expire after seven days. *)
Definition demo_cfg : AppConfig :=
  {| EventsTable := "event-processor-events";
     IdemTable := "event-processor-idempotency";
     Region := "us-east-1";
     EventsTTLDays := 0;
     IdemTTLDays := 7 |}.

Definition demo_db : DB :=
  <["event-processor-idempotency" := {| KeySchema := ["pk"]; Items := ∅ |}]>
  (<["event-processor-events" :=
       {| KeySchema := ["tenant_id"; "sk"]; Items := ∅ |}]> ∅).

Definition fresh_world (fault : nat → option error) : World (col := demo fault) :=
  {| cfg := demo_cfg; schemas_byType := ∅; db := demo_db;
     clock := 0; requests := 0; log := []; calls := [] |}.

(** Scenario C: the envelope of scenario A is written, retried, and then
    redelivered with another type, payload and created_at. *)
Definition envelope_A_again : Envelope (num := text_numeric) :=
  {| TenantID := "t1"; EventID := "e1"; EventType := "user.updated";
     Route := "r"; Payload := Some payload_B; CreatedAt := "2024-05-02T00:00:00Z" |}.

Definition world_A : World (col := demo no_fault) :=
  (persistEventOnce envelope_A "READY" "" (fresh_world no_fault)).2.

Definition world_AA : World (col := demo no_fault) :=
  (persistEventOnce envelope_A "INVALID" "retry" world_A).2.

(** The writer of [TestHandler_DuplicateAck]: always a duplicate. *)
Definition duplicate_stub (fault : nat → option error)
    : Envelope (num := text_numeric) → string → string →
      M (col := demo fault) (bool * option error) :=
  λ _ _ _ σ, ((false, None), σ).

Definition body_garbage : string := "not json".

(* ===================================================================== *)
(** * Start-up ([getEnv], [mustInit])                                     *)
(* ===================================================================== *)

(** The digits of a decimal numeral, most significant first, added to
    [acc]; [None] at the first character that is no digit. *)
Fixpoint digits_value (s : string) (acc : Z) : option Z :=
  match s with
  | EmptyString => Some acc
  | String c s' =>
      match Ascii.is_nat c with
      | Some d => digits_value s' (acc * 10 + Z.of_nat d)
      | None => None
      end
  end.

(** [strconv.Atoi] where [int] has 64 bits (the build is for amd64): an
    optional sign, then at least one decimal digit and nothing else, the
    value in the range of [int]; [None] stands for a non-nil error. *)
Definition strconv_Atoi (s : string) : option Z :=
  let '(negative, body) :=
    match s with
    | String c s' =>
        if decide (String c "" = "-") then (true, s')
        else if decide (String c "" = "+") then (false, s')
        else (false, s)
    | EmptyString => (false, s)
    end in
  match body with
  | EmptyString => None
  | _ =>
      match digits_value body 0 with
      | Some n =>
          let v := if negative : bool then (- n)%Z else n in
          if decide (- 2 ^ 63 ≤ v < 2 ^ 63)%Z then Some v else None
      | None => None
      end
  end.

Section startup.
Context `{col : Collaborators}.

(** [os.Getenv]: the empty string for a variable that is not set. *)
Variable Getenv : string → string.

(** [config.LoadDefaultConfig] for a region: its error, if any. *)
Variable LoadDefaultConfig : string → option error.

(** [getEnv] returns the value of key or a default if unset. *)
Definition getEnv (key def : string) : string :=
  let v := Getenv key in
  if decide (v = "") then def else v.

Definition with_cfg (c : AppConfig) (σ : World) : World :=
  {| cfg := c; schemas_byType := schemas_byType σ; db := db σ;
     clock := clock σ; requests := requests σ; log := log σ; calls := calls σ |}.

(** [mustInit] initializes runtime configuration; [None] is the exit of the
    process through [log.Fatalf] when the AWS config cannot be loaded. *)
Definition mustInit (σ : World) : option World :=
  let region := getEnv "AWS_REGION" "us-east-1" in
  let eventsTable := Getenv "EVENTS_TABLE" in
  let idemTable := Getenv "IDEMPOTENCY_TABLE" in
  let eventsTTLDays :=
    let d := Getenv "EVENTS_TTL_DAYS" in
    if decide (d ≠ "") then
      match strconv_Atoi d with
      | Some n => n
      | None => EventsTTLDays (cfg σ)
      end
    else EventsTTLDays (cfg σ) in
  let idemTTLDays :=
    let d := Getenv "IDEMPOTENCY_TTL_DAYS" in
    if decide (d ≠ "") then
      match strconv_Atoi d with
      | Some n => n
      | None => IdemTTLDays (cfg σ)
      end
    else IdemTTLDays (cfg σ) in
  match LoadDefaultConfig region with
  | Some err => None
  | None =>
      Some (with_cfg {| EventsTable := eventsTable; IdemTable := idemTable;
                        Region := region; EventsTTLDays := eventsTTLDays;
                        IdemTTLDays := idemTTLDays |} σ)
  end.

End startup.

(** ** More vocabulary *)

Section vocabulary.
Context `{col : Collaborators}.

(** The text has no ['#'], the separator of the keys. *)
Definition no_hash (s : string) : Prop := strings_Contains s "#" = false.

(** The attributes every ledger record has. *)
Definition ledger_attributes : gset string :=
  {[ "tenant_id"; "sk"; "event_type"; "status"; "payload"; "retries";
     "tenant_id_created_at" ]}.

(** The attributes a ledger record has when the condition holds. *)
Definition optional (P : Prop) `{!Decision P} (a : string) : gset string :=
  if decide P then {[ a ]} else ∅.

(** The number of clock readings of one call of the writer. *)
Definition readings (c : AppConfig) (env : Envelope) : nat :=
  1 + (if decide (0 < IdemTTLDays c)%Z then 1 else 0)
    + (if decide (CreatedAt env = "") then 1 else 0)
    + (if decide (0 < EventsTTLDays c)%Z then 1 else 0).

(** The store answers every request from the [n]-th on. *)
Definition store_answers_from (n : nat) : Prop :=
  ∀ m, n ≤ m → store_fault m = None.

(** The validation library never answers with an empty text: neither the
    error of [Validate] nor the description of a violation is empty. *)
Definition texts_nonempty : Prop :=
  (∀ schema payload err,
     Schema_Validate schema payload = inr err → Error err ≠ "") ∧
  (∀ r : ResultError, ResultError_String r ≠ "").

(** A message [handleRecord] does not reject: the body decodes and the
    three identity fields are there. *)
Definition complete (rec : SQSMessage) : Prop :=
  ∃ env, json_Unmarshal (Body rec) = inl env ∧
         TenantID env ≠ "" ∧ EventID env ≠ "" ∧ EventType env ≠ "".

End vocabulary.

(** ** The deployment, continued *)




(** The environment Terraform gives the function, and one with a retention
    that is no integer. *)
Definition demo_environ (key : string) : string :=
  if decide (key = "EVENTS_TABLE") then "event-processor-events"
  else if decide (key = "IDEMPOTENCY_TABLE") then "event-processor-idempotency"
  else if decide (key = "EVENTS_TTL_DAYS") then "0"
  else if decide (key = "IDEMPOTENCY_TTL_DAYS") then "7"
  else "".

Definition odd_environ (key : string) : string :=
  if decide (key = "EVENTS_TTL_DAYS") then "7.5"
  else if decide (key = "IDEMPOTENCY_TTL_DAYS") then " 7"
  else demo_environ key.

(** A process that has just started: the zero configuration. *)
Definition started_world : World (col := demo no_fault) :=
  {| cfg := {| EventsTable := ""; IdemTable := ""; Region := "";
               EventsTTLDays := 0; IdemTTLDays := 0 |};
     schemas_byType := ∅; db := demo_db;
     clock := 0; requests := 0; log := []; calls := [] |}.

(** A failure of the store that is no failed precondition and does not
    look like one. *)
Definition throttled : error :=
  errors_New "operation error DynamoDB: TransactWriteItems, ThrottlingException: Rate exceeded".

Definition throttling : nat → option error := λ _, Some throttled.

(* ===================================================================== *)
(** * Time to live                                                        *)
(* ===================================================================== *)





Section expiry.
Context `{col : Collaborators}.






End expiry.

(* ===================================================================== *)
(** * Numbers as [%v] prints them                                         *)
(* ===================================================================== *)






(* ===================================================================== *)
(** * The deployment, for the failures                                    *)
(* ===================================================================== *)





Definition days (n : Z) : Z := (n * 24 * Hour)%Z.






(** The stack of [infra/main.tf] applied with the variable [project] set
    to ConditionalCheckFailed-drill: the tables are named after it. *)
Definition drill_cfg : AppConfig :=
  {| EventsTable := "ConditionalCheckFailed-drill-events";
     IdemTable := "ConditionalCheckFailed-drill-idempotency";
     Region := "us-east-1";
     EventsTTLDays := 0;
     IdemTTLDays := 7 |}.

Definition drill_db : DB :=
  <["ConditionalCheckFailed-drill-idempotency" := {| KeySchema := ["pk"]; Items := ∅ |}]>
  (<["ConditionalCheckFailed-drill-events" :=
       {| KeySchema := ["tenant_id"; "sk"]; Items := ∅ |}]> ∅).

(** The function's role is not allowed to write to the idempotency table:
    the error names the table of the request. *)
Definition table_access_denied : error :=
  errors_New "operation error DynamoDB: TransactWriteItems, https response error StatusCode: 400, api error AccessDeniedException: User: arn:aws:sts::123456789012:assumed-role/ConditionalCheckFailed-drill-lambda-role/ConditionalCheckFailed-drill is not authorized to perform: dynamodb:PutItem on resource: arn:aws:dynamodb:us-east-1:123456789012:table/ConditionalCheckFailed-drill-idempotency because no identity-based policy allows the dynamodb:PutItem action".

Definition unauthorized : nat → option error := λ _, Some table_access_denied.

Definition drill_world : World (col := demo unauthorized) :=
  {| cfg := drill_cfg; schemas_byType := ∅; db := drill_db;
     clock := 0; requests := 0; log := []; calls := [] |}.

(** * cmd/seeder/main.go *)

Module Seeder.

(** What the seeder calls: the environment, the AWS configuration loader,
    SQS, the embedded schema files, the UUID generator, the clock and the
    JSON encoder.  The generator and the clock answer by the number of the
    draw; [send_fault n] is the error of the [n]-th [SendMessage], if any;
    [latency_ms] and [amount] are the literals 12.3 and 123.45. *)
Class Services `{num : Numeric} := {
  Getenv : string → string;
  LoadDefaultConfig : string → option error;
  GetQueueUrl : string → string + error;
  fs_Stat : string → option error;
  uuid_NewString : nat → string;
  time_Now : nat → Time;
  Format_RFC3339 : Time → string;
  json_Marshal : gmap string any → string;
  send_fault : nat → option error;
  latency_ms : float64;
  amount : float64
}.

Record Response := { Message : string }.

Record SendMessageInput := {
  QueueUrl : string;
  MessageBody : string;
  MessageGroupId : string;
  MessageDeduplicationId : string
}.

(** The world of one invocation: the draws so far, the requests sent to
    SQS, the messages it accepted, and the log. *)
Record World := {
  uuids : nat;
  clock : nat;
  sends : nat;
  queue : list SendMessageInput;
  log : list string
}.

Section seeder.
Context `{svc : Services}.

Definition M (A : Type) : Type := World → A * World.

Definition ret {A} (a : A) : M A := λ σ, (a, σ).

Definition bind {A B} (m : M A) (k : A → M B) : M B := λ σ,
  let '(a, σ') := m σ in k a σ'.

Notation "x ← m ; k" := (bind m (λ x, k))
  (at level 20, m at level 100, k at level 200, only parsing) : M_scope.
Notation "m ;; k" := (bind m (λ _, k))
  (at level 100, k at level 200, only parsing, right associativity) : M_scope.
Local Open Scope M_scope.

(** [uuid.NewString()]. *)
Definition uuid_New : M string := λ σ,
  (uuid_NewString (uuids σ),
   {| uuids := S (uuids σ); clock := clock σ; sends := sends σ;
      queue := queue σ; log := log σ |}).

(** [time.Now().UTC().Format(time.RFC3339)]. *)
Definition now_RFC3339 : M string := λ σ,
  (Format_RFC3339 (time_Now (clock σ)),
   {| uuids := uuids σ; clock := S (clock σ); sends := sends σ;
      queue := queue σ; log := log σ |}).

Definition log_Printf (line : string) : M unit := λ σ,
  (tt, {| uuids := uuids σ; clock := clock σ; sends := sends σ;
          queue := queue σ; log := log σ ++ [line] |}).

(** [sqsc.SendMessage(ctx, input)]: the queue takes the message unless the
    request fails. *)
Definition sqsc_SendMessage (input : SendMessageInput) : M (option error) := λ σ,
  match send_fault (sends σ) with
  | Some err =>
      (Some err, {| uuids := uuids σ; clock := clock σ; sends := S (sends σ);
                    queue := queue σ; log := log σ |})
  | None =>
      (None, {| uuids := uuids σ; clock := clock σ; sends := S (sends σ);
                queue := queue σ ++ [input]; log := log σ |})
  end.

Definition getEnv (key def : string) : string :=
  let v := Getenv key in
  if decide (v = "") then def else v.

Definition hasSchema (name : string) : bool :=
  match fs_Stat name with
  | Some _ => false
  | None => true
  end.

Definition sendEvent (queueURL tenant eventType : string)
    (payload : gmap string any) : M (option error) :=
  eventID ← uuid_New;
  created_at ← now_RFC3339;
  let env : gmap string any :=
    {[ "tenant_id" := string_value tenant;
       "event_id" := string_value eventID;
       "event_type" := string_value eventType;
       "route" := string_value "default";
       "payload" := map_value payload;
       "created_at" := string_value created_at ]} in
  let b := json_Marshal env in
  sqsc_SendMessage {| QueueUrl := queueURL;
                      MessageBody := b;
                      MessageGroupId := tenant;
                      MessageDeduplicationId := eventID |}.

Definition publishUserCreatedSample (queueURL : string) : M (option error) :=
  if negb (hasSchema "user.created.json") then
    log_Printf "user.created schema missing; skipping publish";;
    ret None
  else
    let tenant := "tenant-a" in
    id ← uuid_New;
    let payload : gmap string any :=
      {[ "id" := string_value id;
         "email" := string_value "user@example.com" ]} in
    sendEvent queueURL tenant "user.created" payload.

Definition publishMonitoringSample (queueURL : string) : M (option error) :=
  if negb (hasSchema "monitoring.json") then
    log_Printf "monitoring schema missing; skipping publish";;
    ret None
  else
    let tenant := "tenant-a" in
    timestamp ← now_RFC3339;
    let payload : gmap string any :=
      {[ "timestamp" := string_value timestamp;
         "level" := string_value "INFO";
         "message" := string_value "seeder health check ok";
         "source" := string_value "seeder";
         "labels" := map_value
           {[ "env" := string_value "dev";
              "region" := string_value (Getenv "AWS_REGION") ]};
         "metrics" := map_value {[ "latency_ms" := float64_value latency_ms ]} ]} in
    sendEvent queueURL tenant "monitoring" payload.

Definition publishUserApplicationsSample (queueURL : string) : M (option error) :=
  if negb (hasSchema "user.applications.json") then
    log_Printf "user.applications schema missing; skipping publish";;
    ret None
  else
    let tenant := "tenant-a" in
    user_id ← uuid_New;
    timestamp ← now_RFC3339;
    let payload : gmap string any :=
      {[ "app_id" := string_value "app-123";
         "user_id" := string_value user_id;
         "action" := string_value "install";
         "metadata" := map_value
           {[ "platform" := string_value "android";
              "version" := string_value "1.0.0" ]};
         "timestamp" := string_value timestamp ]} in
    sendEvent queueURL tenant "user.applications" payload.

Definition publishTransactionAuthorizersSample (queueURL : string)
    : M (option error) :=
  if negb (hasSchema "transaction.authorizers.json") then
    log_Printf "transaction.authorizers schema missing; skipping publish";;
    ret None
  else
    let tenant := "tenant-a" in
    transaction_id ← uuid_New;
    timestamp ← now_RFC3339;
    let payload : gmap string any :=
      {[ "transaction_id" := string_value transaction_id;
         "authorizer" := string_value "risk-engine";
         "decision" := string_value "APPROVED";
         "reason" := string_value "score high";
         "amount" := float64_value amount;
         "currency" := string_value "USD";
         "timestamp" := string_value timestamp ]} in
    sendEvent queueURL tenant "transaction.authorizers" payload.

Definition publishIntegrationsSample (queueURL : string) : M (option error) :=
  if negb (hasSchema "integrations.json") then
    log_Printf "integrations schema missing; skipping publish";;
    ret None
  else
    let tenant := "tenant-a" in
    id ← uuid_New;
    timestamp ← now_RFC3339;
    let payload : gmap string any :=
      {[ "integration_id" := string_value "int-abc";
         "provider" := string_value "stripe";
         "event" := string_value "webhook.received";
         "payload" := map_value
           {[ "type" := string_value "invoice.paid";
              "id" := string_value id ]};
         "timestamp" := string_value timestamp ]} in
    sendEvent queueURL tenant "integrations" payload.

(** The closure [setFirstErr] of [publishAllSamples], on the variable
    [firstErr] it captures. *)
Definition setFirstErr (firstErr e : option error) : option error :=
  match firstErr, e with
  | None, Some _ => e
  | _, _ => firstErr
  end.

(** [publishAllSamples] attempts to publish one sample for each known event
    type if its corresponding schema file exists in the embedded FS. *)
Definition publishAllSamples (queueURL : string) : M (option error) :=
  err1 ← publishUserCreatedSample queueURL;
  let firstErr := setFirstErr None err1 in
  err2 ← publishMonitoringSample queueURL;
  let firstErr := setFirstErr firstErr err2 in
  err3 ← publishUserApplicationsSample queueURL;
  let firstErr := setFirstErr firstErr err3 in
  err4 ← publishTransactionAuthorizersSample queueURL;
  let firstErr := setFirstErr firstErr err4 in
  err5 ← publishIntegrationsSample queueURL;
  let firstErr := setFirstErr firstErr err5 in
  ret firstErr.

(** [handler]; a [GetQueueUrl] that succeeds is taken to carry a URL. *)
Definition handler : M (Response * option error) :=
  let region := getEnv "AWS_REGION" "us-east-1" in
  let project := getEnv "PROJECT" "event-processor" in
  match LoadDefaultConfig region with
  | Some err => ret ({| Message := "" |}, Some err)
  | None =>
      let queueName := project +:+ "-events.fifo" in
      match GetQueueUrl queueName with
      | inr err => ret ({| Message := "" |}, Some (fmt_Errorf_w "sqs:GetQueueUrl: " err))
      | inl queueURL =>
          err ← publishAllSamples queueURL;
          match err with
          | Some e => ret ({| Message := "" |}, Some e)
          | None => ret ({| Message := "Seed Lambda completed" |}, None)
          end
      end
  end.

(** ** Vocabulary of the statements *)

(** The schema files the five publishers look for, in the order of
    [publishAllSamples], and those of them that are embedded. *)
Definition sample_files : list string :=
  ["user.created.json"; "monitoring.json"; "user.applications.json";
   "transaction.authorizers.json"; "integrations.json"].

Definition embedded : list string :=
  filter (λ name, hasSchema name = true) sample_files.

(** The errors of [n] successive requests to SQS, from the [first] on. *)
Definition send_errors (first n : nat) : list error :=
  omap send_fault (seq first n).

(** The envelope a message carries: the six keys, the tenant as the group,
    the event id as the deduplication id, and the default route. *)
Definition carries_envelope (queueURL : string) (msg : SendMessageInput) : Prop :=
  QueueUrl msg = queueURL ∧
  MessageGroupId msg = "tenant-a" ∧
  ∃ (env : gmap string any) eventType payload created_at,
    MessageBody msg = json_Marshal env ∧
    env = {[ "tenant_id" := string_value (MessageGroupId msg);
             "event_id" := string_value (MessageDeduplicationId msg);
             "event_type" := string_value eventType;
             "route" := string_value "default";
             "payload" := map_value payload;
             "created_at" := string_value created_at ]} ∧
    eventType +:+ ".json" ∈ sample_files.

(** What one publisher does: nothing but a log line when its schema file
    is not embedded; otherwise one request to SQS, whose error it returns,
    and one message with a fresh identifier when the request succeeds. *)
Definition attempt (queueURL file : string)
    (σ : World) (r : option error) (σ' : World) : Prop :=
  if hasSchema file then
    r = send_fault (sends σ) ∧ sends σ' = S (sends σ) ∧ log σ' = log σ ∧
    uuids σ < uuids σ' ∧
    ∃ msg, carries_envelope queueURL msg ∧
           MessageDeduplicationId msg = uuid_NewString (pred (uuids σ')) ∧
           queue σ' = queue σ ++ match r with Some _ => [] | None => [msg] end
  else
    r = None ∧ sends σ' = sends σ ∧ queue σ' = queue σ ∧
    uuids σ' = uuids σ ∧ length (log σ') = S (length (log σ)).

(** The body of [publishAllSamples] for any list of publishers. *)
Fixpoint attempt_all (publishers : list (M (option error)))
    (firstErr : option error) : M (option error) :=
  match publishers with
  | [] => ret firstErr
  | publish :: rest =>
      err ← publish;
      attempt_all rest (setFirstErr firstErr err)
  end.

End seeder.

(** ** A deployment of the seeder *)

Definition demo_Stat (name : string) : option error :=
  if decide (name = "user.created.json") then None
  else if decide (name = "integrations.json") then None
  else Some (errors_New ("stat " +:+ name +:+ ": file does not exist")).

Definition demo (fault : nat → option error) : Services (num := text_numeric) :=
  {| Getenv := λ key, if decide (key = "PROJECT") then "demo" else "";
     LoadDefaultConfig := λ _, None;
     GetQueueUrl := λ name, inl ("https://sqs.us-east-1.amazonaws.com/1/" +:+ name);
     fs_Stat := demo_Stat;
     uuid_NewString := λ n, "uuid-" +:+ pretty n;
     time_Now := λ n, (1714557600000000000 + Z.of_nat n)%Z;
     Format_RFC3339 := λ t, pretty t;
     json_Marshal := λ env, strings_Join (map_to_list env).*1 ",";
     send_fault := fault;
     latency_ms := ("12.3" : @float64 text_numeric);
     amount := ("123.45" : @float64 text_numeric) |}.

Definition start : World :=
  {| uuids := 0; clock := 0; sends := 0; queue := []; log := [] |}.

End Seeder.

(* ===================================================================== *)
(** * Properties                                                          *)
(* ===================================================================== *)

(** ** The Go helpers on small inputs *)

Example strings_Join_three : strings_Join ["a"; "b"; "c"] "; " = "a; b; c".
Proof. reflexivity. Qed.

Example strings_Join_one : strings_Join ["a"] "; " = "a".
Proof. reflexivity. Qed.

Example strings_Contains_inside :
  strings_Contains "code: ConditionalCheckFailed (item 1)" "ConditionalCheckFailed" = true.
Proof. reflexivity. Qed.

Example strings_Contains_absent :
  strings_Contains "ThrottlingException: Rate exceeded" "ConditionalCheckFailed" = false.
Proof. reflexivity. Qed.

Example seven_days : days_Duration 7 = 604800000000000%Z.
Proof. reflexivity. Qed.

(** A retention beyond what a [time.Duration] holds wraps around. *)
Example days_Duration_wraps : days_Duration 106752 = (-9223371273709551616)%Z.
Proof. reflexivity. Qed.

Section store_facts.

Lemma canceled_is_duplicate (checks : list PutCheck) (k : list string) :
  Checked k false ∈ checks →
  treated_as_duplicate (canceled checks) = true.
Proof.
  intros Hin. unfold treated_as_duplicate, canceled. simpl.
  replace (has_ConditionalCheckFailed (reason_of <$> checks)) with true; [done|].
  symmetry. unfold has_ConditionalCheckFailed.
  apply existsb_exists. exists (reason_of (Checked k false)). split.
  - apply list_elem_of_In, list_elem_of_fmap. eauto.
  - reflexivity.
Qed.

Lemma eval_not_exists (a : string) (o : option Item) :
  (∀ it, o = Some it → is_Some (it !! a)) →
  eval_condition (attribute_not_exists a) o = bool_decide (o = None).
Proof.
  intros Hk. destruct o as [it|]; simpl; [|done].
  destruct (Hk it eq_refl) as [v ->]. done.
Qed.

(** The transaction of the writer on the two tables of the deployment. *)
Lemma transact_two (d : DB) (ni ne : string) (ti te : Table)
    (idem evt : Item) (pk lk : list string) :
  ni ≠ ne →
  d !! ni = Some ti → KeySchema ti = ["pk"] →
  d !! ne = Some te → KeySchema te = ["tenant_id"; "sk"] →
  item_key ["pk"] idem = Some pk →
  item_key ["tenant_id"; "sk"] evt = Some lk →
  well_keyed d →
  TransactWriteItems None d
    [ {| TableName := ni; PutItem := idem; Condition := attribute_not_exists "pk" |};
      {| TableName := ne; PutItem := evt; Condition := attribute_not_exists "sk" |} ]
  = if decide (Items ti !! pk = None ∧ Items te !! lk = None)
    then (<[ne := {| KeySchema := KeySchema te; Items := <[lk := evt]> (Items te) |}]>
          (<[ni := {| KeySchema := KeySchema ti; Items := <[pk := idem]> (Items ti) |}]> d),
          None)
    else (d, Some (canceled [Checked pk (bool_decide (Items ti !! pk = None));
                             Checked lk (bool_decide (Items te !! lk = None))])).
Proof.
  intros Hne Hti Hki Hte Hke Hpk Hlk Hwk.
  assert (∀ it, Items ti !! pk = Some it → is_Some (it !! "pk")) as Hi.
  { intros it Hit. pose proof (Hwk _ _ _ _ Hti Hit) as Hk. rewrite Hki in Hk.
    unfold item_key in Hk. simpl in Hk. unfold key_attr in Hk.
    destruct (it !! "pk"); [eauto | done]. }
  assert (∀ it, Items te !! lk = Some it → is_Some (it !! "sk")) as He.
  { intros it Hit. pose proof (Hwk _ _ _ _ Hte Hit) as Hk. rewrite Hke in Hk.
    unfold item_key in Hk. simpl in Hk. unfold key_attr in Hk.
    destruct (it !! "tenant_id") as [[]|]; simpl in Hk; try done.
    destruct (it !! "sk"); [eauto | done]. }
  unfold TransactWriteItems. simpl.
  unfold target, check_put. simpl. rewrite Hti, Hte, Hki, Hke, Hpk, Hlk. simpl.
  pose proof (eval_not_exists "pk" _ Hi) as E1.
  pose proof (eval_not_exists "sk" _ He) as E2.
  simpl in E1, E2. rewrite E1, E2. clear E1 E2.
  rewrite bool_decide_eq_true_2.
  2:{ apply NoDup_cons. split; [|apply NoDup_singleton].
      rewrite list_elem_of_singleton. congruence. }
  simpl. unfold apply_put. simpl. rewrite Hti, Hki, Hpk.
  rewrite lookup_insert_ne by done. rewrite Hte, Hke, Hlk.
  case_decide as Hd.
  - destruct Hd as [Hd1 Hd2]. by rewrite !bool_decide_eq_true_2 by done.
  - destruct (decide (Items ti !! pk = None)) as [Hd1|Hd1];
      [destruct (decide (Items te !! lk = None)) as [Hd2|Hd2]; [tauto|]|].
    + rewrite (bool_decide_eq_false_2 _ Hd2). by rewrite andb_false_r.
    + by rewrite (bool_decide_eq_false_2 _ Hd1).
Qed.

End store_facts.

Section pipeline_facts.
Context `{col : Collaborators}.

(** What [persistEventOnce] sends to the store. *)
Lemma persist_request_spec (env : Envelope) (status reason : string) (σ : World) :
  ∃ idem evt created σ1,
    persist_request env status reason σ = (transact_input (cfg σ) idem evt, σ1) ∧
    only_clock σ σ1 ∧
    item_key ["pk"] idem = Some [TenantID env +:+ "#" +:+ EventID env] ∧
    item_key ["tenant_id"; "sk"] evt
      = Some [TenantID env; created +:+ "#" +:+ EventID env] ∧
    (CreatedAt env ≠ "" → created = CreatedAt env) ∧
    evt !! "status" = Some (S_ status) ∧
    evt !! "reason" = (if decide (reason = "") then None else Some (S_ reason)) ∧
    idem !! "ttl"
      = (if decide (0 < IdemTTLDays (cfg σ))%Z
         then Some (N_ (fmt_d (expiry (time_Now (S (clock σ))) (IdemTTLDays (cfg σ)))))
         else None) ∧
    ∃ n, evt !! "ttl"
      = (if decide (0 < EventsTTLDays (cfg σ))%Z
         then Some (N_ (fmt_d (expiry (time_Now n) (EventsTTLDays (cfg σ)))))
         else None).
Proof.
  unfold persist_request, build_idem, build_evt, created_of, bind, Now, get_cfg, ret.
  simpl.
  repeat (case_decide; simpl);
  (eexists _, _, _, _; split; [reflexivity|]; split; [by repeat split|];
   split; [reflexivity|]; split; [reflexivity|]; split; [done|];
   split; [reflexivity|]; split; [reflexivity|];
   split; [reflexivity|]; first [by exists 0 | by eexists]).
Qed.

Lemma well_keyed_insert (d : DB) (name : string) (tbl : Table)
    (k : list string) (it : Item) :
  well_keyed d → d !! name = Some tbl →
  item_key (KeySchema tbl) it = Some k →
  well_keyed (<[name := {| KeySchema := KeySchema tbl;
                           Items := <[k := it]> (Items tbl) |}]> d).
Proof.
  intros Hwk Hn Hk name' tbl' k' it' Hl Hi.
  destruct (decide (name = name')) as [<-|Hne].
  - rewrite lookup_insert_eq in Hl. injection Hl as <-. simpl in *.
    destruct (decide (k = k')) as [<-|Hk'].
    + rewrite lookup_insert_eq in Hi. by injection Hi as <-.
    + rewrite lookup_insert_ne in Hi by done. eauto.
  - rewrite lookup_insert_ne in Hl by done. eauto.
Qed.

(** The effect of one call of the writer on a provisioned store. *)
Lemma persistEventOnce_spec (env : Envelope) (status reason : string)
    (σ σ1 : World) (idem evt : Item) (pk lk : list string) :
  provisioned σ → well_keyed (db σ) →
  persist_request env status reason σ = (transact_input (cfg σ) idem evt, σ1) →
  only_clock σ σ1 →
  item_key ["pk"] idem = Some pk →
  item_key ["tenant_id"; "sk"] evt = Some lk →
  ∃ r σ',
    persistEventOnce env status reason σ = (r, σ') ∧
    cfg σ' = cfg σ ∧ schemas_byType σ' = schemas_byType σ ∧
    log σ' = log σ ∧ calls σ' = calls σ ∧ requests σ' = S (requests σ) ∧
    provisioned σ' ∧ well_keyed (db σ') ∧
    match store_fault (requests σ) with
    | Some e => r = outcome (Some e) ∧ db σ' = db σ
    | None =>
        (dedup σ !! pk = None ∧ ledger σ !! lk = None ∧ r = (true, None) ∧
         dedup σ' = <[pk := idem]> (dedup σ) ∧
         ledger σ' = <[lk := evt]> (ledger σ))
        ∨ (¬ (dedup σ !! pk = None ∧ ledger σ !! lk = None) ∧
           r = (false, None) ∧ db σ' = db σ)
    end.
Proof.
  intros Hprov Hwk Hreq (Hcfg & Hsch & Hdb & Hrq & Hlog & Hcalls) Hpk Hlk.
  pose proof Hprov as (Hne & (ti & Hti & Hki) & (te & Hte & Hke)).
  unfold persistEventOnce, bind, ret. rewrite Hreq.
  unfold dbClient_TransactWriteItems. rewrite Hdb, Hrq.
  destruct (store_fault (requests σ)) as [e|] eqn:Hf.
  { eexists _, _. split; [reflexivity|].
    cbn [cfg schemas_byType db log calls requests clock].
    rewrite Hcfg, Hsch, Hlog, Hcalls. split_and!; try done. }
  unfold transact_input.
  rewrite (transact_two _ _ _ ti te idem evt pk lk Hne Hti Hki Hte Hke Hpk Hlk Hwk).
  unfold dedup, ledger, table_items. rewrite Hti, Hte.
  case_decide as Hd.
  - eexists _, _. split; [reflexivity|].
    cbn [cfg schemas_byType db log calls requests clock].
    rewrite Hcfg, Hsch, Hlog, Hcalls. split_and!; try done.
    + unfold provisioned. cbn [cfg db]. split; [done|]. split.
      * eexists. rewrite lookup_insert_ne by done. rewrite lookup_insert_eq.
        split; [reflexivity|done].
      * eexists. rewrite lookup_insert_eq. split; [reflexivity|done].
    + apply well_keyed_insert.
      * apply well_keyed_insert; [done..|]. by rewrite Hki.
      * by rewrite lookup_insert_ne.
      * by rewrite Hke.
    + left. destruct Hd as [Hd1 Hd2]. split_and!; try done.
      * rewrite lookup_insert_ne by done. by rewrite lookup_insert_eq.
      * by rewrite lookup_insert_eq.
  - eexists _, _. split; [reflexivity|].
    cbn [cfg schemas_byType db log calls requests clock].
    rewrite Hcfg, Hsch, Hlog, Hcalls.
    assert (outcome (Some (canceled
              [Checked pk (bool_decide (Items ti !! pk = None));
               Checked lk (bool_decide (Items te !! lk = None))])) = (false, None)) as ->.
    { unfold outcome.
      destruct (decide (Items ti !! pk = None)) as [Hd1|Hd1].
      - destruct (decide (Items te !! lk = None)) as [Hd2|Hd2]; [tauto|].
        rewrite (canceled_is_duplicate _ lk); [done|].
        rewrite (bool_decide_eq_false_2 _ Hd2). set_solver.
      - rewrite (canceled_is_duplicate _ pk); [done|].
        rewrite (bool_decide_eq_false_2 _ Hd1). set_solver. }
    split_and!; try done. right. done.
Qed.


(** One call of the writer, whatever it returns, keeps the deployment and
    every record already stored. *)
Lemma persistEventOnce_grows (env : Envelope) (status reason : string)
    (σ σ' : World) (r : bool * option error) :
  provisioned σ → well_keyed (db σ) →
  persistEventOnce env status reason σ = (r, σ') →
  provisioned σ' ∧ well_keyed (db σ') ∧ cfg σ' = cfg σ ∧
  dedup σ ⊆ dedup σ' ∧ ledger σ ⊆ ledger σ'.
Proof.
  intros Hprov Hwk Hcall.
  destruct (persist_request_spec env status reason σ)
    as (idem & evt & created & σ1 & Hreq & Hclk & Hpk & Hlk & _).
  destruct (persistEventOnce_spec env status reason σ σ1 idem evt _ _
              Hprov Hwk Hreq Hclk Hpk Hlk)
    as (r' & σ'' & Hcall' & Hcfg & _ & _ & _ & _ & Hprov' & Hwk' & Hcase).
  rewrite Hcall in Hcall'. injection Hcall' as <- <-.
  split_and!; try done.
  - destruct (store_fault (requests σ)).
    + destruct Hcase as [_ Hdb]. unfold dedup. by rewrite Hdb, Hcfg.
    + destruct Hcase as [(Hd & _ & _ & -> & _)|(_ & _ & Hdb)].
      * by apply insert_subseteq.
      * unfold dedup. by rewrite Hdb, Hcfg.
  - destruct (store_fault (requests σ)).
    + destruct Hcase as [_ Hdb]. unfold ledger. by rewrite Hdb, Hcfg.
    + destruct Hcase as [(_ & Hl & _ & _ & ->)|(_ & _ & Hdb)].
      * by apply insert_subseteq.
      * unfold ledger. by rewrite Hdb, Hcfg.
Qed.


(** A call for an event whose deduplication record exists writes nothing. *)
Lemma persistEventOnce_known (env : Envelope) (status reason : string) (σ : World) :
  provisioned σ → well_keyed (db σ) →
  is_Some (dedup σ !! [TenantID env +:+ "#" +:+ EventID env]) →
  ∃ r σ',
    persistEventOnce env status reason σ = (r, σ') ∧
    r.1 = false ∧
    (store_fault (requests σ) = None → r = (false, None)) ∧
    db σ' = db σ ∧ cfg σ' = cfg σ.
Proof.
  intros Hprov Hwk [it Hit].
  destruct (persist_request_spec env status reason σ)
    as (idem & evt & created & σ1 & Hreq & Hclk & Hpk & Hlk & _).
  destruct (persistEventOnce_spec env status reason σ σ1 idem evt _ _
              Hprov Hwk Hreq Hclk Hpk Hlk)
    as (r & σ' & Hcall & Hcfg & _ & _ & _ & _ & _ & _ & Hcase).
  exists r, σ'. split; [done|].
  destruct (store_fault (requests σ)) as [e|].
  - destruct Hcase as [-> Hdb]. split_and!; try done.
    unfold outcome. by destruct (treated_as_duplicate e).
  - destruct Hcase as [(Hd & _)|(_ & -> & Hdb)]; [congruence|done].
Qed.

End pipeline_facts.

Section idempotence.
Context `{col : Collaborators}.

(** A run is determined by its result and the world it leaves. *)
Lemma run_result {A : Type} (m : M A) (σ : World) (a : A) :
  (m σ).1 = a → m σ = (a, (m σ).2).
Proof. intros <-. by destruct (m σ). Qed.








End idempotence.

Lemma demo_db_well_keyed : well_keyed demo_db.
Proof.
  intros name tbl k it Hl Hi. unfold demo_db in Hl.
  apply lookup_insert_Some in Hl as [[_ <-]|[_ Hl]]; [done|].
  apply lookup_insert_Some in Hl as [[_ <-]|[_ Hl]]; done.
Qed.

Lemma fresh_world_provisioned (fault : nat → option error) :
  provisioned (fresh_world fault).
Proof.
  split; [done|]. split; eexists; (split; [reflexivity|done]).
Qed.





Section codec_facts.
Context `{num : Numeric}.







End codec_facts.

Section codec_claim.
Context `{num : Numeric}.



End codec_claim.



Section validation_facts.
Context `{col : Collaborators}.

(** [loadSchema] on a cache that holds compiled documents only: the schema
    of the type if it can be used, cached from then on; else the failure,
    and the cache as it was. *)
Lemma loadSchema_spec (eventType : string) (σ : World) :
  cache_ok σ →
  match schema_of eventType with
  | inl schema =>
      ∃ σ', loadSchema eventType σ = (inl schema, σ') ∧
            cache_ok σ' ∧ cfg σ' = cfg σ ∧ db σ' = db σ ∧
            clock σ' = clock σ ∧ requests σ' = requests σ ∧
            log σ' = log σ ∧ calls σ' = calls σ
  | inr err => loadSchema eventType σ = (inr err, σ)
  end.
Proof.
  intros Hok. unfold loadSchema, bind, get_schemas, ret.
  destruct (schemas_byType σ !! eventType) as [s|] eqn:Hs.
  - rewrite (Hok _ _ Hs). exists σ. by split_and!.
  - unfold schema_of. cbv zeta.
    destruct (FS_ReadFile (eventType +:+ ".json")) as [b|e] eqn:Hr; [|done].
    destruct (gojsonschema_NewSchema b) as [schema|e] eqn:Hc; [|done].
    eexists. split; [reflexivity|]. split_and!; try done.
    intros ty s'. unfold put_schema. simpl.
    destruct (decide (eventType = ty)) as [<-|Hne].
    + rewrite lookup_insert_eq. intros [= <-]. unfold schema_of. cbv zeta.
      by rewrite Hr, Hc.
    + rewrite lookup_insert_ne by done. apply Hok.
Qed.

Lemma validate_spec (env : Envelope) (σ : World) :
  cache_ok σ →
  ∃ σ',
    validate env σ = (verdict env, σ') ∧
    cache_ok σ' ∧ cfg σ' = cfg σ ∧ db σ' = db σ ∧
    clock σ' = clock σ ∧ requests σ' = requests σ ∧
    log σ' = log σ ∧ calls σ' = calls σ ++ [Call_validate env].
Proof.
  intros Hok. unfold validate, verdict, bind.
  set (σe := (enter (Call_validate env) σ).2).
  assert (cache_ok σe) as Hoke by done.
  pose proof (loadSchema_spec (EventType env) σe Hoke) as Hload.
  change (enter (Call_validate env) σ) with (tt, σe).
  destruct (schema_of (EventType env)) as [schema|err].
  - destruct Hload as (σ' & -> & Hok' & ? & ? & ? & ? & ? & ?).
    exists σ'. split; [|by split_and!].
    destruct (Schema_Validate schema (Payload env)) as [res|err]; [|done].
    by destruct (Result_Valid res).
  - rewrite Hload. exists σe. by split_and!.
Qed.


Section handling_facts.
Variable writeEventOnce : Envelope → string → string → M (bool * option error).

(** [handleRecord] on a message that decodes to a complete envelope. *)
Lemma handleRecord_accepted (rec : SQSMessage) (env : Envelope) (σ : World) :
  json_Unmarshal (Body rec) = inl env →
  TenantID env ≠ "" → EventID env ≠ "" → EventType env ≠ "" →
  handleRecord writeEventOnce rec σ
  = let '((status, reason), σ1) := writer_arguments env σ in
    let '((written, err), σ2) := writeEventOnce env status reason σ1 in
    match err with
    | Some e => (Some (fmt_Errorf_w "persist error: " e), σ2)
    | None =>
        (None,
         (print (if negb written
                 then Log_duplicate (TenantID env) (EventID env) (EventType env)
                 else if decide (status = "INVALID")
                      then Log_processed_invalid status reason (TenantID env)
                             (EventID env) (EventType env)
                      else Log_processed status (TenantID env) (EventID env)
                             (EventType env)) σ2).2)
    end.
Proof.
  intros Hj Ht He Hty. unfold handleRecord, writer_arguments. rewrite Hj.
  unfold bind, ret, print, enter. cbv beta iota zeta.
  rewrite decide_False by tauto.
  destruct (validate env _) as [[valid reason] σv]. cbv beta iota zeta.
  destruct (writeEventOnce _ _ _ _) as [[written [e|]] σ2]; [done|].
  destruct written; cbv beta iota zeta; simpl; [|done].
  by case_decide.
Qed.

(** C6. [handleRecord] fails before the validator or the writer runs on a
    body that does not decode, and on an envelope that lacks its tenant,
    event id or event type: it returns an error, no call of [validate] or
    of the writer is made, and cache, store and clock are as they were
    (only the decoded envelope has been printed in the second case). *)
Theorem handleRecord_rejects (rec : SQSMessage) (σ : World) :
  (∀ err, json_Unmarshal (Body rec) = inr err →
     handleRecord writeEventOnce rec σ
     = (Some (fmt_Errorf_w "invalid JSON: " err), σ)) ∧
  (∀ env, json_Unmarshal (Body rec) = inl env →
     TenantID env = "" ∨ EventID env = "" ∨ EventType env = "" →
     ∃ σ',
       handleRecord writeEventOnce rec σ
       = (Some (errors_New "missing required envelope fields"), σ') ∧
       calls σ' = calls σ ∧ db σ' = db σ ∧
       schemas_byType σ' = schemas_byType σ ∧
       clock σ' = clock σ ∧ requests σ' = requests σ ∧
       log σ' = log σ ++ [Print_env env]).
Proof.
  split.
  - intros err Hj. unfold handleRecord. by rewrite Hj.
  - intros env Hj Hmissing. unfold handleRecord. rewrite Hj.
    unfold bind, print. rewrite decide_True by done.
    eexists. split; [reflexivity|]. by split_and!.
Qed.

(** C8. Whenever the writer answers (false, nil), [handleRecord] returns
    nil, whatever the validator said about the envelope: a duplicate is
    logged and acknowledged. *)
Theorem handleRecord_acknowledges_duplicate
    (rec : SQSMessage) (env : Envelope) (σ σ' : World) :
  json_Unmarshal (Body rec) = inl env →
  TenantID env ≠ "" → EventID env ≠ "" → EventType env ≠ "" →
  writeEventOnce env (writer_arguments env σ).1.1 (writer_arguments env σ).1.2
    (writer_arguments env σ).2 = ((false, None), σ') →
  handleRecord writeEventOnce rec σ
  = (None, (print (Log_duplicate (TenantID env) (EventID env) (EventType env)) σ').2).
Proof.
  intros Hj Ht He Hty Hw. rewrite (handleRecord_accepted rec env σ Hj Ht He Hty).
  destruct (writer_arguments env σ) as [[status reason] σ1]. simpl in Hw.
  by rewrite Hw.
Qed.

Lemma succeed_all_step (rec : SQSMessage) (rest : list SQSMessage) (σ : World) :
  (handleRecord writeEventOnce rec σ).1 = None →
  succeed_all writeEventOnce (rec :: rest) σ
  = succeed_all writeEventOnce rest (handleRecord writeEventOnce rec σ).2.
Proof. simpl. by destruct (handleRecord writeEventOnce rec σ) as [[e|] σ']. Qed.

(** C7. [handler] processes the messages of a batch in delivery order: if
    every message succeeds it returns nil in the world the last one left;
    otherwise it stops at the first message that fails, logs and returns
    that failure, and the messages after it are not processed (the outcome
    does not depend on them). *)
Theorem handler_stops_at_first_failure (records : list SQSMessage) (σ : World) :
  (∀ σ', succeed_all writeEventOnce records σ = Some σ' →
     handler writeEventOnce records σ = (None, σ')) ∧
  (∀ pre rec post σ1 err σ2,
     records = pre ++ rec :: post →
     succeed_all writeEventOnce pre σ = Some σ1 →
     handleRecord writeEventOnce rec σ1 = (Some err, σ2) →
     handler writeEventOnce records σ
     = (Some err, (print (Log_record_failed err) σ2).2)).
Proof.
  split.
  - revert σ. induction records as [|rec rest IH]; intros σ σ' Hall; simpl in *.
    + by injection Hall as ->.
    + unfold bind. destruct (handleRecord writeEventOnce rec σ) as [[e|] σ1]; [done|].
      by apply IH.
  - intros pre rec post σ1 err σ2 -> Hpre Hrec. revert σ Hpre.
    induction pre as [|r pre IH]; intros σ Hpre; simpl in *.
    + injection Hpre as ->. unfold bind. by rewrite Hrec.
    + unfold bind. destruct (handleRecord writeEventOnce r σ) as [[e|] σ']; [done|].
      by apply IH.
Qed.

End handling_facts.

(** What [handleRecord] calls the writer with. *)
Lemma writer_arguments_spec (env : Envelope) (σ : World) :
  cache_ok σ →
  ∃ σ1,
    writer_arguments env σ
    = ((if (verdict env).1 then "READY" else "INVALID", (verdict env).2), σ1) ∧
    cache_ok σ1 ∧ cfg σ1 = cfg σ ∧ db σ1 = db σ ∧
    clock σ1 = clock σ ∧ requests σ1 = requests σ.
Proof.
  intros Hok. unfold writer_arguments, bind, ret, print, enter.
  cbv beta iota zeta.
  match goal with |- context [validate env ?σp] =>
    destruct (validate_spec env σp) as (σv & -> & Hokv & ? & ? & ? & ? & _);
      [done|]
  end.
  destruct (verdict env) as [valid reason]. cbv beta iota zeta.
  eexists. split; [reflexivity|]. by split_and!.
Qed.

End validation_facts.

Section writer_facts.
Context `{col : Collaborators}.

Lemma treated_as_duplicate_spec (err : error) :
  treated_as_duplicate err
  = precondition_failure err || strings_Contains (Error err) "ConditionalCheckFailed".
Proof.
  unfold treated_as_duplicate, precondition_failure.
  by destruct (errors_As_tce (chain err)) as [rs|].
Qed.

(** The ledger record a successful call stores is the event item of its
    request. *)
Lemma persistEventOnce_written (env : Envelope) (status reason : string)
    (σ σ' : World) :
  provisioned σ → well_keyed (db σ) →
  persistEventOnce env status reason σ = ((true, None), σ') →
  ∃ created evt,
    ledger σ !! [TenantID env; created +:+ "#" +:+ EventID env] = None ∧
    ledger σ' = <[[TenantID env; created +:+ "#" +:+ EventID env] := evt]> (ledger σ) ∧
    evt !! "status" = Some (S_ status) ∧
    evt !! "reason" = (if decide (reason = "") then None else Some (S_ reason)).
Proof.
  intros Hprov Hwk Hcall.
  destruct (persist_request_spec env status reason σ)
    as (idem & evt & created & σ1 & Hreq & Hclk & Hpk & Hlk & _ & Hst & Hre & _).
  destruct (persistEventOnce_spec env status reason σ σ1 idem evt _ _
              Hprov Hwk Hreq Hclk Hpk Hlk)
    as (r & σ'' & Hcall' & _ & _ & _ & _ & _ & _ & _ & Hcase).
  rewrite Hcall in Hcall'. injection Hcall' as <- <-.
  exists created, evt.
  destruct (store_fault (requests σ)) as [e|].
  - destruct Hcase as [Hr _]. unfold outcome in Hr.
    by destruct (treated_as_duplicate e).
  - by destruct Hcase as [(_ & ? & _ & _ & ?)|(_ & ? & _)].
Qed.

(** The answers of the writer, by what the store does with the request. *)
Lemma persistEventOnce_cases (env : Envelope) (status reason : string)
    (σ : World) :
  provisioned σ → well_keyed (db σ) →
  ∃ created idem evt r σ',
    persistEventOnce env status reason σ = (r, σ') ∧
    match store_fault (requests σ) with
    | None =>
        if decide (dedup σ !! [TenantID env +:+ "#" +:+ EventID env] = None ∧
                   ledger σ !! [TenantID env; created +:+ "#" +:+ EventID env] = None)
        then r = (true, None) ∧
             dedup σ' = <[[TenantID env +:+ "#" +:+ EventID env] := idem]> (dedup σ) ∧
             ledger σ' = <[[TenantID env; created +:+ "#" +:+ EventID env] := evt]> (ledger σ)
        else r = (false, None) ∧ db σ' = db σ
    | Some e =>
        r = (if precondition_failure e
                || strings_Contains (Error e) "ConditionalCheckFailed"
             then (false, None) else (false, Some e)) ∧
        db σ' = db σ
    end.
Proof.
  intros Hprov Hwk.
  destruct (persist_request_spec env status reason σ)
    as (idem & evt & created & σ1 & Hreq & Hclk & Hpk & Hlk & _).
  destruct (persistEventOnce_spec env status reason σ σ1 idem evt _ _
              Hprov Hwk Hreq Hclk Hpk Hlk)
    as (r & σ' & Hcall & _ & _ & _ & _ & _ & _ & _ & Hcase).
  exists created, idem, evt, r, σ'. split; [done|].
  destruct (store_fault (requests σ)) as [e|].
  - destruct Hcase as [-> Hdb]. split; [|done].
    unfold outcome. by rewrite treated_as_duplicate_spec.
  - case_decide as Hd.
    + destruct Hcase as [(_ & _ & ? & ? & ?)|(Hn & _)]; [done|tauto].
    + destruct Hcase as [(? & ? & _)|(_ & ? & ?)]; [tauto|done].
Qed.

Lemma provisioned_frame (σ σ' : World) :
  cfg σ' = cfg σ → db σ' = db σ → provisioned σ → provisioned σ'.
Proof. unfold provisioned. by intros -> ->. Qed.

(** C3. An envelope whose type has no schema document, or one that does
    not compile, is not a failure of the pipeline: [validate] answers
    (false, "schema load error: " followed by the text of the failure), and
    [handleRecord], for a complete envelope that is not yet recorded and a
    store that answers, returns nil after a ledger record with status
    INVALID and that reason has been written. *)
Theorem unusable_schema_is_recorded_invalid (env : Envelope) (σ : World)
    (err : error) :
  cache_ok σ →
  schema_of (EventType env) = inr err →
  (validate env σ).1 = (false, "schema load error: " +:+ Error err) ∧
  ∀ rec,
    json_Unmarshal (Body rec) = inl env →
    TenantID env ≠ "" → EventID env ≠ "" → EventType env ≠ "" →
    provisioned σ → well_keyed (db σ) →
    dedup σ !! [TenantID env +:+ "#" +:+ EventID env] = None →
    (∀ created, ledger σ !! [TenantID env; created +:+ "#" +:+ EventID env] = None) →
    store_fault (requests σ) = None →
    ∃ σ' created evt,
      handleRecord persistEventOnce rec σ = (None, σ') ∧
      ledger σ' = <[[TenantID env; created +:+ "#" +:+ EventID env] := evt]> (ledger σ) ∧
      evt !! "status" = Some (S_ "INVALID") ∧
      evt !! "reason" = Some (S_ ("schema load error: " +:+ Error err)).
Proof.
  intros Hok Hs. split.
  { destruct (validate_spec env σ Hok) as (σ' & -> & _).
    unfold verdict. by rewrite Hs. }
  intros rec Hj Ht He Hty Hprov Hwk Hdedup Hledger Hfault.
  rewrite (handleRecord_accepted _ rec env σ Hj Ht He Hty).
  destruct (writer_arguments_spec env σ Hok)
    as (σ1 & -> & _ & Hcfg & Hdb & _ & Hrq).
  unfold verdict. rewrite Hs. cbn [fst snd].
  set (reason := "schema load error: " +:+ Error err).
  assert (provisioned σ1) as Hprov1 by by eapply provisioned_frame.
  assert (well_keyed (db σ1)) as Hwk1 by by rewrite Hdb.
  destruct (persistEventOnce_cases env "INVALID" reason σ1 Hprov1 Hwk1)
    as (created & idem & evt & r & σ2 & Hcall & Hcase).
  rewrite Hrq, Hfault in Hcase.
  unfold dedup, ledger in Hcase. rewrite Hcfg, Hdb in Hcase.
  fold (dedup σ) in Hcase. fold (ledger σ) in Hcase.
  rewrite decide_True in Hcase by done.
  destruct Hcase as (-> & _ & Hl).
  destruct (persistEventOnce_written env "INVALID" reason σ1 σ2 Hprov1 Hwk1 Hcall)
    as (created' & evt' & _ & Hl' & Hst & Hre).
  rewrite Hcall. cbv beta iota zeta. rewrite decide_True by done.
  eexists _, created', evt'. split; [reflexivity|]. split_and!.
  - unfold ledger in *. cbn [print snd cfg db]. rewrite Hl'.
    by rewrite Hcfg, Hdb.
  - done.
  - rewrite Hre. by rewrite decide_False.
Qed.

(** The request of the writer, with the attributes of its ledger item. *)
Lemma persist_request_fields (env : Envelope) (status reason : string) (σ : World) :
  ∃ idem evt created σ1,
    persist_request env status reason σ = (transact_input (cfg σ) idem evt, σ1) ∧
    only_clock σ σ1 ∧
    item_key ["pk"] idem = Some [TenantID env +:+ "#" +:+ EventID env] ∧
    item_key ["tenant_id"; "sk"] evt
      = Some [TenantID env; created +:+ "#" +:+ EventID env] ∧
    evt !! "event_type" = Some (S_ (EventType env)) ∧
    evt !! "status" = Some (S_ status) ∧
    evt !! "route" = (if decide (Route env = "") then None
                      else Some (S_ (Route env))) ∧
    evt !! "payload" = Some (AttributeValueMemberM (toAttrMap (Payload env))) ∧
    evt !! "retries" = Some (N_ "0") ∧
    evt !! "reason" = (if decide (reason = "") then None else Some (S_ reason)) ∧
    (is_Some (evt !! "ttl") ↔ (0 < EventsTTLDays (cfg σ))%Z) ∧
    dom evt = {[ "tenant_id"; "sk"; "event_type"; "status"; "payload";
                 "retries"; "tenant_id_created_at" ]}
              ∪ (if decide (Route env = "") then ∅ else {[ "route" ]})
              ∪ (if decide (reason = "") then ∅ else {[ "reason" ]})
              ∪ (if decide (0 < EventsTTLDays (cfg σ))%Z then {[ "ttl" ]} else ∅).
Proof.
  unfold persist_request, build_idem, build_evt, created_of, bind, Now, get_cfg, ret.
  simpl.
  repeat (case_decide; simpl);
  (eexists _, _, _, _; split; [reflexivity|]; split; [by repeat split|];
   split; [reflexivity|]; split; [reflexivity|];
   split_and!; try reflexivity;
   first [ by split; [intros [? ?]|eauto]
         | by split; [intros [? ?]; done|lia]
         | rewrite ?dom_insert_L, dom_empty_L; set_solver ]).
Qed.

Lemma verdict_valid_no_reason (env : Envelope) :
  (verdict env).1 = true → (verdict env).2 = "".
Proof.
  unfold verdict. destruct (schema_of (EventType env)) as [schema|e]; [|done].
  destruct (Schema_Validate schema (Payload env)) as [res|e]; [|done].
  by destruct (Result_Valid res).
Qed.

Lemma append_nonempty (s t : string) : s ≠ "" → s +:+ t ≠ "".
Proof.
  destruct s as [|c s]; [done|]. intros _.
  change (String c (s +:+ t) ≠ ""). done.
Qed.

Lemma strings_Join_nonempty (elems : list string) (sep : string) :
  elems ≠ [] → Forall (λ e, e ≠ "") elems → strings_Join elems sep ≠ "".
Proof.
  destruct elems as [|e rest]; [done|]. intros _ Hall.
  apply Forall_cons in Hall as [He _]. simpl.
  destruct rest; [done|]. by apply append_nonempty.
Qed.

Lemma verdict_invalid_has_reason (env : Envelope) :
  texts_nonempty → (verdict env).1 = false → (verdict env).2 ≠ "".
Proof.
  intros [Herr Htext]. unfold verdict.
  destruct (schema_of (EventType env)) as [schema|e].
  2:{ intros _. simpl. by apply append_nonempty. }
  destruct (Schema_Validate schema (Payload env)) as [res|e] eqn:Hv.
  2:{ intros _. simpl. by eapply Herr. }
  destruct res as [|r res]; [done|]. intros _.
  change (strings_Join (ResultError_String <$> r :: res) "; " ≠ "").
  apply strings_Join_nonempty; [done|].
  apply Forall_fmap, Forall_forall. intros x _. apply Htext.
Qed.

(** C9. The ledger record of an event.  Whatever record [handleRecord]
    adds to the ledger, it is the record of the envelope in the message,
    with its event_type, a status that is READY when the payload is valid
    and INVALID otherwise, the route unless it is empty, the payload as
    [toAttrMap] converts it, retries 0, as reason the text of the validator
    unless that is empty, and a ttl exactly when [EventsTTLDays] is
    positive; beside these and its keys it has no attribute.  A reason is
    present only when the status is INVALID, and, the validation library
    never answering with an empty text, exactly when it is: a READY
    record has no reason and an INVALID record has one. *)
Theorem ledger_record_fields (rec : SQSMessage) (σ : World) (k : list string) :
  provisioned σ → well_keyed (db σ) → cache_ok σ →
  ledger σ !! k = None →
  is_Some (ledger (handleRecord persistEventOnce rec σ).2 !! k) →
  ∃ env evt,
    json_Unmarshal (Body rec) = inl env ∧
    ledger (handleRecord persistEventOnce rec σ).2 !! k = Some evt ∧
    evt !! "event_type" = Some (S_ (EventType env)) ∧
    evt !! "status" = Some (S_ (if (verdict env).1 then "READY" else "INVALID")) ∧
    evt !! "route" = (if decide (Route env = "") then None
                      else Some (S_ (Route env))) ∧
    evt !! "payload" = Some (AttributeValueMemberM (toAttrMap (Payload env))) ∧
    evt !! "retries" = Some (N_ "0") ∧
    evt !! "reason" = (if decide ((verdict env).2 = "") then None
                       else Some (S_ (verdict env).2)) ∧
    (is_Some (evt !! "reason") → evt !! "status" = Some (S_ "INVALID")) ∧
    (texts_nonempty →
     (is_Some (evt !! "reason") ↔ evt !! "status" = Some (S_ "INVALID"))) ∧
    (is_Some (evt !! "ttl") ↔ (0 < EventsTTLDays (cfg σ))%Z) ∧
    dom evt = {[ "tenant_id"; "sk"; "event_type"; "status"; "payload";
                 "retries"; "tenant_id_created_at" ]}
              ∪ (if decide (Route env = "") then ∅ else {[ "route" ]})
              ∪ (if decide ((verdict env).2 = "") then ∅ else {[ "reason" ]})
              ∪ (if decide (0 < EventsTTLDays (cfg σ))%Z then {[ "ttl" ]} else ∅).
Proof.
  intros Hprov Hwk Hok Hnone Hsome.
  destruct (json_Unmarshal (Body rec)) as [env|e] eqn:Hj.
  2:{ exfalso. unfold handleRecord in Hsome. rewrite Hj in Hsome.
      simpl in Hsome. rewrite Hnone in Hsome. by destruct Hsome. }
  destruct (decide (TenantID env = "" ∨ EventID env = "" ∨ EventType env = ""))
    as [Hmiss|Hfull].
  { exfalso. unfold handleRecord in Hsome. rewrite Hj in Hsome.
    unfold bind, print in Hsome. rewrite decide_True in Hsome by done.
    unfold ledger in *. simpl in Hsome. rewrite Hnone in Hsome.
    by destruct Hsome. }
  rewrite (handleRecord_accepted _ rec env σ Hj) in Hsome |- * by tauto.
  destruct (writer_arguments_spec env σ Hok)
    as (σ1 & Hargs & _ & Hcfg & Hdb & _ & Hrq).
  rewrite Hargs in Hsome |- *. clear Hargs.
  assert (provisioned σ1) as Hprov1 by by eapply provisioned_frame.
  assert (well_keyed (db σ1)) as Hwk1 by by rewrite Hdb.
  assert (ledger σ1 = ledger σ) as Hl1 by (unfold ledger; by rewrite Hcfg, Hdb).
  set (status := if (verdict env).1 then "READY" else "INVALID") in *.
  set (reason := (verdict env).2) in *.
  destruct (persist_request_fields env status reason σ1)
    as (idem & evt & created & σr & Hreq & Hclk & Hpk & Hlk & Hty & Hst & Hro
        & Hpay & Hret & Hre & Httl & Hdom).
  destruct (persistEventOnce_spec env status reason σ1 σr idem evt _ _
              Hprov1 Hwk1 Hreq Hclk Hpk Hlk)
    as (r & σ2 & Hcall & Hcfg2 & _ & _ & _ & _ & _ & _ & Hcase).
  rewrite Hcall in Hsome |- *. cbv beta iota zeta in Hsome |- *.
  assert (∀ lg, ledger {| cfg := cfg σ2; schemas_byType := schemas_byType σ2;
                          db := db σ2; clock := clock σ2;
                          requests := requests σ2; log := lg;
                          calls := calls σ2 |} = ledger σ2) as Hprint by done.
  assert (ledger σ2 !! k = Some evt ∧ r.2 = None) as [Hk Hr].
  { destruct (store_fault (requests σ1)) as [e|].
    - exfalso. destruct Hcase as [-> Hdb2]. unfold outcome in Hsome.
      assert (ledger σ2 = ledger σ) as Hl2.
      { rewrite <- Hl1. unfold ledger. by rewrite Hdb2, Hcfg2. }
      destruct (treated_as_duplicate e); simpl in Hsome;
        rewrite ?Hprint, Hl2, Hnone in Hsome; by destruct Hsome.
    - destruct Hcase as [(_ & _ & -> & _ & Hl2)|(_ & -> & Hdb2)].
      + simpl in Hsome. rewrite Hprint in Hsome. split; [|done].
        rewrite Hl2, Hl1 in Hsome |- *.
        destruct (decide ([TenantID env; created +:+ "#" +:+ EventID env] = k))
          as [<-|Hne].
        * by rewrite lookup_insert_eq.
        * rewrite lookup_insert_ne, Hnone in Hsome by done. by destruct Hsome.
      + exfalso. simpl in Hsome. rewrite Hprint in Hsome.
        assert (ledger σ2 = ledger σ) as Hl2.
        { rewrite <- Hl1. unfold ledger. by rewrite Hdb2, Hcfg2. }
        rewrite Hl2, Hnone in Hsome. by destruct Hsome. }
  destruct r as [written err]. simpl in Hr. subst err.
  simpl. rewrite Hprint.
  assert (is_Some (evt !! "reason") → evt !! "status" = Some (S_ "INVALID"))
    as Honly.
  { intros Hsome'. rewrite Hre in Hsome'. rewrite Hst. subst status reason.
    destruct ((verdict env).1) eqn:Hv; [|done].
    rewrite (verdict_valid_no_reason env Hv) in Hsome'.
    rewrite decide_True in Hsome' by done. by destruct Hsome'. }
  exists env, evt. rewrite <- Hcfg. split_and!; try done.
  intros Htexts. split; [done|].
  rewrite Hst, Hre. subst status reason. intros Hinv.
  destruct ((verdict env).1) eqn:Hv; [done|].
  rewrite decide_False; [eauto|]. by apply verdict_invalid_has_reason.
Qed.

(** C10. [persistEventOnce] puts a ttl attribute on the deduplication
    record only when [IdemTTLDays] is strictly positive, and on the ledger
    record only when [EventsTTLDays] is strictly positive; with a retention
    of zero or less the record it sends has no ttl attribute.  When
    present, the attribute is the Unix time of a clock reading plus the
    retention. *)
Theorem ttl_only_for_positive_retention (env : Envelope) (status reason : string)
    (σ : World) :
  ∃ idem evt σ1 n,
    persist_request env status reason σ = (transact_input (cfg σ) idem evt, σ1) ∧
    persistEventOnce env status reason σ
    = (let '(err, σ2) :=
         dbClient_TransactWriteItems (transact_input (cfg σ) idem evt) σ1 in
       (outcome err, σ2)) ∧
    idem !! "ttl"
    = (if decide (0 < IdemTTLDays (cfg σ))%Z
       then Some (N_ (fmt_d (expiry (time_Now (S (clock σ))) (IdemTTLDays (cfg σ)))))
       else None) ∧
    evt !! "ttl"
    = (if decide (0 < EventsTTLDays (cfg σ))%Z
       then Some (N_ (fmt_d (expiry (time_Now n) (EventsTTLDays (cfg σ)))))
       else None).
Proof.
  destruct (persist_request_spec env status reason σ)
    as (idem & evt & created & σ1 & Hreq & _ & _ & _ & _ & _ & _ & Hi & n & He).
  exists idem, evt, σ1, n. split_and!; try done.
  unfold persistEventOnce, bind, ret. by rewrite Hreq.
Qed.

End writer_facts.

(** ** The scenarios of the deployment *)

Lemma fresh_world_cache_ok (fault : nat → option error) :
  cache_ok (fresh_world fault).
Proof. intros ty s Hs. done. Qed.

(** Scenario A: a payload with both required fields is valid. *)
Example scenario_A_valid :
  (validate (col := demo no_fault) envelope_A (fresh_world no_fault)).1 = (true, "").
Proof. reflexivity. Qed.

(** Scenario A, then scenario B, in one batch: both are recorded. *)
Example scenario_A_then_B :
  (handler (col := demo no_fault) persistEventOnce
     [{| Body := body_A |}; {| Body := body_B |}] (fresh_world no_fault)).1 = None ∧
  size (ledger (handler (col := demo no_fault) persistEventOnce
     [{| Body := body_A |}; {| Body := body_B |}] (fresh_world no_fault)).2) = 2.
Proof. split; by vm_compute. Qed.

(** C2. A failure that is no failed precondition is taken for a
    duplicate when its text contains "ConditionalCheckFailed".  In the
    stack named ConditionalCheckFailed-drill the role of the function may
    not write to the idempotency table; the request addresses that table,
    the store answers with the access-denied error that names it, and
    [persistEventOnce] returns (false, nil) instead of (false, err):
    nothing is written, [handleRecord] logs a duplicate and returns nil,
    and the message is acknowledged.  A failure whose text lacks the
    words is returned as the documentation says. *)
Lemma persistEventOnce_swallows_access_denied :
  precondition_failure table_access_denied = false ∧
  TableName <$> (persist_request (col := demo unauthorized) envelope_A "READY" ""
                   drill_world).1
    = ["ConditionalCheckFailed-drill-idempotency";
       "ConditionalCheckFailed-drill-events"] ∧
  (persistEventOnce (col := demo unauthorized) envelope_A "READY" ""
     drill_world).1 = (false, None) ∧
  db (persistEventOnce (col := demo unauthorized) envelope_A "READY" ""
        drill_world).2 = drill_db ∧
  (handleRecord (col := demo unauthorized) persistEventOnce {| Body := body_A |}
     drill_world).1 = None ∧
  last (log (handleRecord (col := demo unauthorized) persistEventOnce
               {| Body := body_A |} drill_world).2)
    = Some (Log_duplicate "t1" "e1" "user.created") ∧
  (persistEventOnce (col := demo throttling) envelope_A "READY" ""
     (fresh_world throttling)).1 = (false, Some throttled).
Proof.
  split_and!; [by vm_compute | by vm_compute | by vm_compute | reflexivity
              | by vm_compute | by vm_compute | by vm_compute].
Qed.

Lemma unusable_schema_is_recorded_invalid_witness :
  (validate (col := demo no_fault) envelope_D (fresh_world no_fault)).1
  = (false, "schema load error: embed read schema order.shipped.json: open order.shipped.json: file does not exist") ∧
  ∃ σ' created evt,
    handleRecord (col := demo no_fault) persistEventOnce {| Body := body_D |}
      (fresh_world no_fault) = (None, σ') ∧
    ledger σ' = <[[TenantID envelope_D; created +:+ "#" +:+ EventID envelope_D] := evt]>
                  (ledger (fresh_world no_fault)) ∧
    evt !! "status" = Some (S_ "INVALID") ∧
    evt !! "reason" = Some (S_ "schema load error: embed read schema order.shipped.json: open order.shipped.json: file does not exist").
Proof.
  destruct (unusable_schema_is_recorded_invalid (col := demo no_fault)
              envelope_D (fresh_world no_fault)
              (fmt_Errorf_w "embed read schema order.shipped.json: "
                 (errors_New "open order.shipped.json: file does not exist")))
    as [Hv Hh].
  - apply fresh_world_cache_ok.
  - reflexivity.
  - split; [exact Hv|].
    apply (Hh {| Body := body_D |}).
    + reflexivity.
    + done.
    + done.
    + done.
    + apply fresh_world_provisioned.
    + apply demo_db_well_keyed.
    + reflexivity.
    + intros created. reflexivity.
    + reflexivity.
Defined.


Lemma handleRecord_rejects_witness :
  handleRecord (col := demo no_fault) persistEventOnce {| Body := body_garbage |}
    (fresh_world no_fault)
  = (Some (fmt_Errorf_w "invalid JSON: "
             (errors_New "invalid character 'o' in literal null (expecting 'u')")),
     fresh_world no_fault) ∧
  ∃ σ',
    handleRecord (col := demo no_fault) persistEventOnce {| Body := body_M |}
      (fresh_world no_fault)
    = (Some (errors_New "missing required envelope fields"), σ') ∧
    calls σ' = calls (fresh_world no_fault) ∧
    db σ' = db (fresh_world no_fault) ∧
    schemas_byType σ' = schemas_byType (fresh_world no_fault) ∧
    clock σ' = clock (fresh_world no_fault) ∧
    requests σ' = requests (fresh_world no_fault) ∧
    log σ' = log (fresh_world no_fault) ++ [Print_env envelope_M].
Proof.
  split.
  - apply (handleRecord_rejects (col := demo no_fault) persistEventOnce
             {| Body := body_garbage |} (fresh_world no_fault)).
    reflexivity.
  - apply (handleRecord_rejects (col := demo no_fault) persistEventOnce
             {| Body := body_M |} (fresh_world no_fault)).
    + reflexivity.
    + right. left. reflexivity.
Defined.

Lemma handleRecord_acknowledges_duplicate_witness :
  handleRecord (col := demo no_fault) (duplicate_stub no_fault) {| Body := body_B |}
    (fresh_world no_fault)
  = (None,
     (print (Log_duplicate (TenantID envelope_B) (EventID envelope_B)
               (EventType envelope_B))
        (writer_arguments envelope_B (fresh_world no_fault)).2).2).
Proof.
  apply (handleRecord_acknowledges_duplicate (col := demo no_fault)
           (duplicate_stub no_fault) {| Body := body_B |} envelope_B
           (fresh_world no_fault)).
  - reflexivity.
  - done.
  - done.
  - done.
  - reflexivity.
Defined.

Lemma handler_stops_at_first_failure_witness :
  handler (col := demo no_fault) persistEventOnce
    [{| Body := body_A |}; {| Body := body_M |}; {| Body := body_B |}]
    (fresh_world no_fault)
  = (Some (errors_New "missing required envelope fields"),
     (print (Log_record_failed (errors_New "missing required envelope fields"))
        (handleRecord persistEventOnce {| Body := body_M |}
           (handleRecord persistEventOnce {| Body := body_A |}
              (fresh_world no_fault)).2).2).2).
Proof.
  destruct (handler_stops_at_first_failure (col := demo no_fault) persistEventOnce
              [{| Body := body_A |}; {| Body := body_M |}; {| Body := body_B |}]
              (fresh_world no_fault)) as [_ Hstop].
  apply (Hstop [{| Body := body_A |}] {| Body := body_M |} [{| Body := body_B |}]
           (handleRecord persistEventOnce {| Body := body_A |}
              (fresh_world no_fault)).2).
  - reflexivity.
  - rewrite succeed_all_step by (by vm_compute). reflexivity.
  - apply run_result. by vm_compute.
Defined.

Lemma demo_texts_nonempty (fault : nat → option error) :
  texts_nonempty (col := demo fault).
Proof. split; [done|]. intros r. by apply append_nonempty. Qed.

Lemma ledger_record_fields_witness :
  ∃ env evt,
    json_Unmarshal (Collaborators := demo no_fault) (Body {| Body := body_B |})
      = inl env ∧
    ledger (handleRecord (col := demo no_fault) persistEventOnce
              {| Body := body_B |} (fresh_world no_fault)).2
      !! ["t1"; "1714557600000000002#e2"] = Some evt ∧
    evt !! "status"
      = Some (S_ (if (verdict (col := demo no_fault) env).1
                  then "READY" else "INVALID")) ∧
    evt !! "reason"
      = (if decide ((verdict (col := demo no_fault) env).2 = "") then None
         else Some (S_ (verdict (col := demo no_fault) env).2)) ∧
    (is_Some (evt !! "reason") ↔ evt !! "status" = Some (S_ "INVALID")).
Proof.
  destruct (ledger_record_fields (col := demo no_fault) {| Body := body_B |}
              (fresh_world no_fault) ["t1"; "1714557600000000002#e2"])
    as (env & evt & Hj & Hk & _ & Hst & _ & _ & _ & Hre & _ & Hiff & _).
  - apply fresh_world_provisioned.
  - apply demo_db_well_keyed.
  - apply fresh_world_cache_ok.
  - reflexivity.
  - apply is_Some_alt. by vm_compute.
  - exists env, evt. split_and!; [done..|]. apply Hiff, demo_texts_nonempty.
Defined.

(* ===================================================================== *)
(** * Further properties                                                  *)
(* ===================================================================== *)

(** ** Start-up *)

Lemma is_nat_pretty_N_char (m : N) :
  (m < 10)%N → Ascii.is_nat (pretty_N_char m) = Some (N.to_nat m).
Proof.
  intros Hm.
  assert (m = 0 ∨ m = 1 ∨ m = 2 ∨ m = 3 ∨ m = 4 ∨ m = 5 ∨ m = 6 ∨ m = 7
          ∨ m = 8 ∨ m = 9)%N as Hcases by lia.
  repeat (destruct Hcases as [->|Hcases]; [done|]). by subst.
Qed.

Lemma pretty_N_char_no_sign (m : N) :
  (m < 10)%N →
  String (pretty_N_char m) "" ≠ "-" ∧ String (pretty_N_char m) "" ≠ "+".
Proof.
  intros Hm.
  assert (m = 0 ∨ m = 1 ∨ m = 2 ∨ m = 3 ∨ m = 4 ∨ m = 5 ∨ m = 6 ∨ m = 7
          ∨ m = 8 ∨ m = 9)%N as Hcases by lia.
  repeat (destruct Hcases as [->|Hcases]; [done|]). by subst.
Qed.

(** Reading back the digits that [pretty] prints in front of [s]. *)
Lemma digits_value_pretty_N_go (x : N) (s : string) :
  ∃ k : Z, (0 ≤ k)%Z ∧
    ∀ acc, digits_value (pretty_N_go x s) acc
           = digits_value s (acc * 10 ^ k + Z.of_N x).
Proof.
  revert s. induction (N.lt_wf_0 x) as [x _ IH]. intros s.
  destruct (decide (x = 0)%N) as [->|Hx].
  { exists 0%Z. split; [done|]. intros acc. rewrite pretty_N_go_0.
    f_equal. lia. }
  rewrite pretty_N_go_step by lia.
  destruct (IH (x `div` 10)%N) with (s := String (pretty_N_char (x `mod` 10)) s)
    as (k & Hk & Hdig).
  { apply N.div_lt; lia. }
  exists (k + 1)%Z. split; [lia|]. intros acc. rewrite Hdig. simpl.
  rewrite is_nat_pretty_N_char by (apply N.mod_lt; lia).
  f_equal. rewrite Z.pow_add_r by lia.
  rewrite N_nat_Z, N2Z.inj_mod, N2Z.inj_div.
  pose proof (Z.div_mod (Z.of_N x) 10). lia.
Qed.

Lemma pretty_N_go_head (x : N) (s : string) :
  (0 < x)%N →
  ∃ m rest, (m < 10)%N ∧ pretty_N_go x s = String (pretty_N_char m) rest.
Proof.
  revert s. induction (N.lt_wf_0 x) as [x _ IH]. intros s Hx.
  rewrite pretty_N_go_step by done.
  destruct (decide (x `div` 10 = 0)%N) as [->|Hd].
  - rewrite pretty_N_go_0. eexists _, _. split; [|done]. apply N.mod_lt. lia.
  - apply IH; [apply N.div_lt; lia | by apply N.neq_0_lt_0].
Qed.

Lemma strconv_Atoi_minus (body : string) :
  strconv_Atoi ("-" +:+ body)
  = match body with
    | EmptyString => None
    | _ =>
        match digits_value body 0 with
        | Some n => if decide (- 2 ^ 63 ≤ - n < 2 ^ 63)%Z then Some (- n)%Z else None
        | None => None
        end
    end.
Proof. reflexivity. Qed.

(** [strconv.Atoi] reads back what [fmt] prints for an [int]. *)
Lemma strconv_Atoi_fmt_d (n : Z) :
  (- 2 ^ 63 ≤ n < 2 ^ 63)%Z → strconv_Atoi (fmt_d n) = Some n.
Proof.
  intros Hn. unfold fmt_d, pretty, pretty_Z.
  destruct n as [|p|p].
  - done.
  - unfold pretty, pretty_positive, pretty, pretty_N.
    rewrite decide_False by done.
    destruct (pretty_N_go_head (N.pos p) "") as (m & rest & Hm & Hs); [lia|].
    destruct (digits_value_pretty_N_go (N.pos p) "") as (k & _ & Hdig).
    specialize (Hdig 0%Z). rewrite Hs in Hdig |- *.
    destruct (pretty_N_char_no_sign m Hm) as [Hminus Hplus].
    unfold strconv_Atoi. rewrite !decide_False by done.
    cbv beta iota zeta.
    rewrite Hdig. cbn [digits_value]. rewrite Z.mul_0_l, Z.add_0_l.
    rewrite decide_True by lia. done.
  - unfold pretty, pretty_positive, pretty, pretty_N.
    rewrite decide_False by done.
    destruct (pretty_N_go_head (N.pos p) "") as (m & rest & Hm & Hs); [lia|].
    destruct (digits_value_pretty_N_go (N.pos p) "") as (k & _ & Hdig).
    specialize (Hdig 0%Z). rewrite Hs in Hdig |- *.
    rewrite strconv_Atoi_minus.
    rewrite Hdig. cbn [digits_value]. rewrite Z.mul_0_l, Z.add_0_l.
    rewrite decide_True by lia. done.
Qed.

Section startup_facts.
Context `{col : Collaborators}.
Variable Getenv : string → string.
Variable LoadDefaultConfig : string → option error.

Lemma getEnv_nonempty (key def : string) :
  def ≠ "" → getEnv Getenv key def ≠ "".
Proof. intros Hdef. unfold getEnv. by case_decide. Qed.

(** X1. [mustInit] reads back the retentions Terraform writes: when the
    two variables hold the decimal text of integers in the range of [int]
    and the AWS configuration loads, the configuration holds exactly these
    integers; the region is never empty (us-east-1 when [AWS_REGION] is
    unset or empty), the table names are taken as they are, and cache and
    store are untouched. *)
Theorem mustInit_reads_retention (σ : World) (events_days idem_days : Z) :
  (- 2 ^ 63 ≤ events_days < 2 ^ 63)%Z →
  (- 2 ^ 63 ≤ idem_days < 2 ^ 63)%Z →
  Getenv "EVENTS_TTL_DAYS" = fmt_d events_days →
  Getenv "IDEMPOTENCY_TTL_DAYS" = fmt_d idem_days →
  LoadDefaultConfig (getEnv Getenv "AWS_REGION" "us-east-1") = None →
  ∃ σ',
    mustInit Getenv LoadDefaultConfig σ = Some σ' ∧
    EventsTTLDays (cfg σ') = events_days ∧
    IdemTTLDays (cfg σ') = idem_days ∧
    Region (cfg σ') ≠ "" ∧
    EventsTable (cfg σ') = Getenv "EVENTS_TABLE" ∧
    IdemTable (cfg σ') = Getenv "IDEMPOTENCY_TABLE" ∧
    db σ' = db σ ∧ schemas_byType σ' = schemas_byType σ.
Proof.
  intros He Hi Hge Hgi Hload. unfold mustInit. rewrite Hload, Hge, Hgi.
  rewrite !strconv_Atoi_fmt_d by done.
  assert (∀ n, (- 2 ^ 63 ≤ n < 2 ^ 63)%Z → fmt_d n ≠ "") as Hne.
  { intros n Hn Hempty. pose proof (strconv_Atoi_fmt_d n Hn) as Ha.
    by rewrite Hempty in Ha. }
  rewrite !decide_True by auto.
  eexists. split; [reflexivity|]. simpl. split_and!; try done.
  by apply getEnv_nonempty.
Qed.

(** X2. A retention that [strconv.Atoi] rejects (unset, empty, "7.5",
    " 7", out of range) is ignored without an error: in a process that has
    just started the retentions stay zero, and the records
    [persistEventOnce] then sends carry no ttl attribute. *)
Theorem unreadable_retention_means_no_expiry
    (σ σ' : World) (env : Envelope) (status reason : string) :
  EventsTTLDays (cfg σ) = 0%Z → IdemTTLDays (cfg σ) = 0%Z →
  strconv_Atoi (Getenv "EVENTS_TTL_DAYS") = None →
  strconv_Atoi (Getenv "IDEMPOTENCY_TTL_DAYS") = None →
  mustInit Getenv LoadDefaultConfig σ = Some σ' →
  EventsTTLDays (cfg σ') = 0%Z ∧ IdemTTLDays (cfg σ') = 0%Z ∧
  ∃ idem evt σ1,
    persist_request env status reason σ' = (transact_input (cfg σ') idem evt, σ1) ∧
    idem !! "ttl" = None ∧ evt !! "ttl" = None.
Proof.
  intros He Hi Hae Hai Hinit. unfold mustInit in Hinit.
  rewrite Hae, Hai, He, Hi in Hinit.
  assert (∀ P (HP : Decision P), (if decide P then 0%Z else 0%Z) = 0%Z) as Hif
    by (intros P HP; by destruct (decide P)).
  rewrite !Hif in Hinit.
  destruct (LoadDefaultConfig _); [done|]. injection Hinit as <-.
  split; [done|]. split; [done|].
  match goal with |- context [persist_request env status reason ?w] =>
    destruct (persist_request_spec env status reason w)
      as (idem & evt & created & σ1 & Hreq & _ & _ & _ & _ & _ & _ & Hti & n & Hte)
  end.
  exists idem, evt, σ1. by split.
Qed.

End startup_facts.

Lemma mustInit_reads_retention_witness :
  ∃ σ',
    mustInit (col := demo no_fault) demo_environ (λ _, None) started_world = Some σ' ∧
    EventsTTLDays (cfg σ') = 0%Z ∧
    IdemTTLDays (cfg σ') = 7%Z ∧
    Region (cfg σ') ≠ "" ∧
    EventsTable (cfg σ') = demo_environ "EVENTS_TABLE" ∧
    IdemTable (cfg σ') = demo_environ "IDEMPOTENCY_TABLE" ∧
    db σ' = db started_world ∧ schemas_byType σ' = schemas_byType started_world.
Proof.
  apply (mustInit_reads_retention (col := demo no_fault) demo_environ (λ _, None)
           started_world 0 7); try reflexivity; lia.
Defined.

Lemma unreadable_retention_means_no_expiry_witness :
  EventsTTLDays (cfg (with_cfg (col := demo no_fault)
     {| EventsTable := "event-processor-events";
        IdemTable := "event-processor-idempotency";
        Region := "us-east-1"; EventsTTLDays := 0; IdemTTLDays := 0 |}
     started_world)) = 0%Z ∧
  IdemTTLDays (cfg (with_cfg (col := demo no_fault)
     {| EventsTable := "event-processor-events";
        IdemTable := "event-processor-idempotency";
        Region := "us-east-1"; EventsTTLDays := 0; IdemTTLDays := 0 |}
     started_world)) = 0%Z ∧
  ∃ idem evt σ1,
    persist_request (col := demo no_fault) envelope_A "READY" ""
      (with_cfg {| EventsTable := "event-processor-events";
                   IdemTable := "event-processor-idempotency";
                   Region := "us-east-1"; EventsTTLDays := 0; IdemTTLDays := 0 |}
         started_world)
    = (transact_input
         (cfg (with_cfg (col := demo no_fault)
            {| EventsTable := "event-processor-events";
               IdemTable := "event-processor-idempotency";
               Region := "us-east-1"; EventsTTLDays := 0; IdemTTLDays := 0 |}
            started_world)) idem evt, σ1) ∧
    idem !! "ttl" = None ∧ evt !! "ttl" = None.
Proof.
  apply (unreadable_retention_means_no_expiry (col := demo no_fault)
           odd_environ (λ _, None) started_world); reflexivity.
Defined.

Section cache_facts.
Context `{col : Collaborators}.

(** What [loadSchema] returns, and the cache it leaves, by the cache it
    finds. *)
Lemma loadSchema_result (eventType : string) (σ : World) :
  ∃ σ',
    loadSchema eventType σ
    = (match schemas_byType σ !! eventType with
       | Some s => inl s
       | None => schema_of eventType
       end, σ') ∧
    schemas_byType σ'
    = match schemas_byType σ !! eventType, schema_of eventType with
      | None, inl s => <[eventType := s]> (schemas_byType σ)
      | _, _ => schemas_byType σ
      end ∧
    (schemas_byType σ' = schemas_byType σ → σ' = σ) ∧
    cfg σ' = cfg σ ∧ db σ' = db σ ∧ clock σ' = clock σ ∧
    requests σ' = requests σ ∧ log σ' = log σ ∧ calls σ' = calls σ.
Proof.
  unfold loadSchema, schema_of, bind, get_schemas, ret. cbv zeta.
  destruct (schemas_byType σ !! eventType) as [s|] eqn:Hs.
  { exists σ. by split_and!. }
  destruct (FS_ReadFile (eventType +:+ ".json")) as [b|e].
  2:{ exists σ. by split_and!. }
  destruct (gojsonschema_NewSchema b) as [schema|e].
  2:{ exists σ. by split_and!. }
  eexists. split; [reflexivity|]. simpl. split_and!; try done.
  intros Heq. destruct σ; simpl in *. by rewrite Heq.
Qed.

(** X3. [loadSchema] caches what it compiles: after a successful load the
    type is in the cache with that schema, a second load returns the same
    schema and changes nothing, and no entry that was in the cache has
    been dropped or replaced.  It touches nothing but the cache. *)
Theorem loadSchema_caches_success (eventType : string) (σ σ1 : World)
    (schema : Schema) :
  loadSchema eventType σ = (inl schema, σ1) →
  schemas_byType σ1 !! eventType = Some schema ∧
  loadSchema eventType σ1 = (inl schema, σ1) ∧
  schemas_byType σ ⊆ schemas_byType σ1 ∧
  cfg σ1 = cfg σ ∧ db σ1 = db σ ∧ clock σ1 = clock σ ∧
  requests σ1 = requests σ ∧ log σ1 = log σ ∧ calls σ1 = calls σ.
Proof.
  intros Hload.
  destruct (loadSchema_result eventType σ)
    as (σ' & Hres & Hcache & _ & Hframe).
  rewrite Hload in Hres. injection Hres as Hr <-.
  assert (schemas_byType σ1 !! eventType = Some schema) as Hhit.
  { rewrite Hcache. destruct (schemas_byType σ !! eventType) as [s|] eqn:Hs.
    - by injection Hr as ->.
    - rewrite <- Hr. by rewrite lookup_insert_eq. }
  split; [done|]. split.
  { destruct (loadSchema_result eventType σ1) as (σ2 & Hres2 & Hcache2 & Hsame & _).
    rewrite Hhit in Hres2, Hcache2. rewrite Hres2. f_equal. by apply Hsame. }
  split; [|done].
  rewrite Hcache. destruct (schemas_byType σ !! eventType) as [s|] eqn:Hs; [done|].
  rewrite <- Hr. by apply insert_subseteq.
Qed.

(** X4. [loadSchema] never caches a failure: a failed load leaves the
    world exactly as it was, with no entry for the type, so the next load
    reads and compiles the document again (and fails in the same way). *)
Theorem loadSchema_failure_not_cached (eventType : string) (σ σ' : World)
    (err : error) :
  loadSchema eventType σ = (inr err, σ') →
  σ' = σ ∧ schemas_byType σ !! eventType = None ∧
  schema_of eventType = inr err ∧
  loadSchema eventType σ' = (inr err, σ').
Proof.
  intros Hload.
  destruct (loadSchema_result eventType σ)
    as (σ1 & Hres & Hcache & Hsame & _).
  rewrite Hload in Hres. injection Hres as Hr <-.
  destruct (schemas_byType σ !! eventType) as [s|] eqn:Hs; [done|].
  rewrite <- Hr in Hcache.
  assert (σ' = σ) as -> by by apply Hsame.
  by rewrite Hload.
Qed.

Lemma validate_unfold (env : Envelope) (σ : World) :
  ∃ σ',
    validate env σ
    = (match (match schemas_byType σ !! EventType env with
              | Some s => inl s
              | None => schema_of (EventType env)
              end) with
       | inr err => (false, "schema load error: " +:+ Error err)
       | inl schema =>
           match Schema_Validate schema (Payload env) with
           | inr err => (false, Error err)
           | inl res =>
               if Result_Valid res then (true, "")
               else (false, strings_Join (ResultError_String <$> res) "; ")
           end
       end, σ') ∧
    schemas_byType σ'
    = match schemas_byType σ !! EventType env, schema_of (EventType env) with
      | None, inl s => <[EventType env := s]> (schemas_byType σ)
      | _, _ => schemas_byType σ
      end ∧
    cfg σ' = cfg σ ∧ db σ' = db σ ∧ clock σ' = clock σ ∧
    requests σ' = requests σ ∧ log σ' = log σ ∧
    calls σ' = calls σ ++ [Call_validate env].
Proof.
  unfold validate, bind.
  set (σe := (enter (Call_validate env) σ).2).
  change (enter (Call_validate env) σ) with (tt, σe).
  destruct (loadSchema_result (EventType env) σe)
    as (σ' & -> & Hcache & _ & ? & ? & ? & ? & ? & ?).
  change (schemas_byType σe) with (schemas_byType σ) in *.
  exists σ'. split; [|by split_and!].
  destruct (match schemas_byType σ !! EventType env with
            | Some s => inl s | None => schema_of (EventType env) end)
    as [schema|err]; [|done].
  destruct (Schema_Validate schema (Payload env)) as [res|err]; [|done].
  by destruct (Result_Valid res).
Qed.

(** X5. [validate] touches nothing but the schema cache: configuration,
    store, clock and log are as they were, the cache has lost no entry,
    and the verdict comes with a reason only when it is invalid (valid
    means the empty reason). *)
Theorem validate_only_fills_cache (env : Envelope) (σ : World) :
  cfg (validate env σ).2 = cfg σ ∧
  db (validate env σ).2 = db σ ∧
  clock (validate env σ).2 = clock σ ∧
  requests (validate env σ).2 = requests σ ∧
  log (validate env σ).2 = log σ ∧
  schemas_byType σ ⊆ schemas_byType (validate env σ).2 ∧
  ((validate env σ).1.1 = true → (validate env σ).1.2 = "").
Proof.
  destruct (validate_unfold env σ) as (σ' & -> & Hcache & ? & ? & ? & ? & ? & _).
  simpl. split_and!; try done.
  - rewrite Hcache.
    destruct (schemas_byType σ !! EventType env) eqn:Hs; [done|].
    destruct (schema_of (EventType env)); [|done]. by apply insert_subseteq.
  - destruct (match schemas_byType σ !! EventType env with
              | Some s => inl s | None => schema_of (EventType env) end)
      as [schema|err]; [|done].
    destruct (Schema_Validate schema (Payload env)) as [res|err]; [|done].
    by destruct (Result_Valid res).
Qed.

(** X6. The verdict on an envelope does not depend on when it is asked:
    once [validate] has run for an envelope, it gives the same verdict in
    every world whose cache entry for the type is the one that run left,
    whether the run loaded the schema, found it in the cache or failed to
    load it. *)
Theorem validate_verdict_is_stable (env : Envelope) (σ σ2 : World) :
  schemas_byType σ2 !! EventType env
    = schemas_byType (validate env σ).2 !! EventType env →
  (validate env σ2).1 = (validate env σ).1.
Proof.
  intros Hentry.
  destruct (validate_unfold env σ) as (σ' & Hv & Hcache & _).
  destruct (validate_unfold env σ2) as (σ2' & -> & _).
  rewrite Hv in Hentry |- *. simpl in *. rewrite Hentry, Hcache.
  destruct (schemas_byType σ !! EventType env) as [s|] eqn:Hs.
  - by rewrite Hs.
  - destruct (schema_of (EventType env)) as [s|e] eqn:Hso.
    + by rewrite lookup_insert_eq.
    + by rewrite Hs.
Qed.

End cache_facts.

Lemma loadSchema_caches_success_witness :
  schemas_byType (loadSchema (col := demo no_fault) "user.created" (fresh_world no_fault)).2
    !! "user.created" = Some ["id"; "email"] ∧
  loadSchema (col := demo no_fault) "user.created"
    (loadSchema (col := demo no_fault) "user.created" (fresh_world no_fault)).2
  = (inl ["id"; "email"],
     (loadSchema (col := demo no_fault) "user.created" (fresh_world no_fault)).2) ∧
  schemas_byType (fresh_world no_fault)
    ⊆ schemas_byType (loadSchema (col := demo no_fault) "user.created"
                        (fresh_world no_fault)).2 ∧
  cfg (loadSchema (col := demo no_fault) "user.created" (fresh_world no_fault)).2
    = cfg (fresh_world no_fault) ∧
  db (loadSchema (col := demo no_fault) "user.created" (fresh_world no_fault)).2
    = db (fresh_world no_fault) ∧
  clock (loadSchema (col := demo no_fault) "user.created" (fresh_world no_fault)).2
    = clock (fresh_world no_fault) ∧
  requests (loadSchema (col := demo no_fault) "user.created" (fresh_world no_fault)).2
    = requests (fresh_world no_fault) ∧
  log (loadSchema (col := demo no_fault) "user.created" (fresh_world no_fault)).2
    = log (fresh_world no_fault) ∧
  calls (loadSchema (col := demo no_fault) "user.created" (fresh_world no_fault)).2
    = calls (fresh_world no_fault).
Proof.
  apply (loadSchema_caches_success (col := demo no_fault) "user.created"
           (fresh_world no_fault)).
  apply run_result. reflexivity.
Defined.

Lemma loadSchema_failure_not_cached_witness :
  fresh_world no_fault = fresh_world no_fault ∧
  schemas_byType (fresh_world no_fault) !! "order.shipped" = None ∧
  schema_of (col := demo no_fault) "order.shipped"
  = inr (fmt_Errorf_w "embed read schema order.shipped.json: "
           (errors_New "open order.shipped.json: file does not exist")) ∧
  loadSchema (col := demo no_fault) "order.shipped" (fresh_world no_fault)
  = (inr (fmt_Errorf_w "embed read schema order.shipped.json: "
            (errors_New "open order.shipped.json: file does not exist")),
     fresh_world no_fault).
Proof.
  apply (loadSchema_failure_not_cached (col := demo no_fault) "order.shipped"
           (fresh_world no_fault) (fresh_world no_fault)).
  reflexivity.
Defined.

Lemma validate_verdict_is_stable_witness :
  (validate (col := demo no_fault) envelope_B
     (validate (col := demo no_fault) envelope_A (fresh_world no_fault)).2).1
  = (validate (col := demo no_fault) envelope_B (fresh_world no_fault)).1.
Proof.
  apply (validate_verdict_is_stable (col := demo no_fault) envelope_B).
  reflexivity.
Defined.

(** ** The writer *)

Section writer_more.
Context `{col : Collaborators}.

(** The footprint of one call of the writer. *)
Lemma persistEventOnce_frame (env : Envelope) (status reason : string)
    (σ : World) :
  requests (persistEventOnce env status reason σ).2 = S (requests σ) ∧
  clock (persistEventOnce env status reason σ).2
    = clock σ + readings (cfg σ) env ∧
  cfg (persistEventOnce env status reason σ).2 = cfg σ ∧
  schemas_byType (persistEventOnce env status reason σ).2 = schemas_byType σ ∧
  log (persistEventOnce env status reason σ).2 = log σ ∧
  calls (persistEventOnce env status reason σ).2 = calls σ ∧
  ((persistEventOnce env status reason σ).1 = (true, None) ∨
   ((persistEventOnce env status reason σ).1.1 = false ∧
    db (persistEventOnce env status reason σ).2 = db σ)).
Proof.
  unfold persistEventOnce, persist_request, build_idem, build_evt, created_of,
    readings, bind, Now, get_cfg, ret, dbClient_TransactWriteItems.
  simpl.
  repeat (case_decide; simpl);
    (match goal with
     | |- context [TransactWriteItems ?f ?d ?i] =>
         destruct (TransactWriteItems f d i) as [d' [e|]] eqn:Htx
     end;
     simpl; split_and!; try done; try lia;
     [ right; split; [unfold outcome; by destruct (treated_as_duplicate e)|];
       unfold TransactWriteItems in Htx;
       repeat (case_match; simplify_eq); done
     | by left ]).
Qed.


(** X7. One call of [persistEventOnce] sends exactly one request to the
    store and reads the clock once, plus once for each positive retention
    and once when the envelope has no created_at; it leaves configuration,
    cache and log alone.  It never returns true together with an error,
    and unless it returns true the store is as it was. *)
Theorem persistEventOnce_footprint (env : Envelope) (status reason : string)
    (σ : World) :
  requests (persistEventOnce env status reason σ).2 = S (requests σ) ∧
  clock (persistEventOnce env status reason σ).2
    = clock σ + readings (cfg σ) env ∧
  cfg (persistEventOnce env status reason σ).2 = cfg σ ∧
  schemas_byType (persistEventOnce env status reason σ).2 = schemas_byType σ ∧
  log (persistEventOnce env status reason σ).2 = log σ ∧
  calls (persistEventOnce env status reason σ).2 = calls σ ∧
  ((persistEventOnce env status reason σ).1 = (true, None) ∨
   ((persistEventOnce env status reason σ).1.1 = false ∧
    db (persistEventOnce env status reason σ).2 = db σ)).
Proof. apply persistEventOnce_frame. Qed.

(** X8. No partial dual-write: along any sequence of calls of the writer on
    the tables of the deployment, whatever their arguments and whatever
    the store answers, the deduplication table and the ledger gain the
    same number of records, at most one per call. *)
Theorem writer_pairs_records (σ σ' : World) (envs : list Envelope) :
  later σ envs σ' →
  provisioned σ → well_keyed (db σ) →
  size (dedup σ') + size (ledger σ) = size (ledger σ') + size (dedup σ) ∧
  size (ledger σ) ≤ size (ledger σ') ≤ size (ledger σ) + length envs.
Proof.
  induction 1 as [σ|σ env status reason r σ1 envs σ2 Hcall _ IH];
    intros Hprov Hwk; [simpl; lia|].
  destruct (persistEventOnce_grows _ _ _ _ _ _ Hprov Hwk Hcall)
    as (Hprov1 & Hwk1 & Hcfg1 & _).
  destruct (IH Hprov1 Hwk1) as [IH1 IH2].
  destruct (persistEventOnce_cases env status reason σ Hprov Hwk)
    as (created & idem & evt & r' & σ1' & Hcall' & Hcase).
  rewrite Hcall in Hcall'. injection Hcall' as <- <-.
  assert ((size (dedup σ1) = S (size (dedup σ)) ∧
           size (ledger σ1) = S (size (ledger σ))) ∨
          (size (dedup σ1) = size (dedup σ) ∧
           size (ledger σ1) = size (ledger σ))) as Hstep.
  { destruct (store_fault (requests σ)).
    - right. destruct Hcase as [_ Hdb]. unfold dedup, ledger.
      by rewrite Hdb, Hcfg1.
    - case_decide as Hd.
      + left. destruct Hcase as (_ & -> & ->). destruct Hd as [Hd1 Hd2].
        by rewrite !map_size_insert_None.
      + right. destruct Hcase as [_ Hdb]. unfold dedup, ledger.
        by rewrite Hdb, Hcfg1. }
  simpl. lia.
Qed.


Lemma no_hash_cons c (s : string) :
  no_hash (String c s) ↔ String c "" ≠ "#" ∧ no_hash s.
Proof.
  unfold no_hash. cbn [strings_Contains String.prefix].
  destruct (Stdlib.Strings.Ascii.ascii_dec _ c) as [<-|Hc]; simpl.
  - assert (String.prefix "" s = true) as -> by by destruct s.
    split; [done|]. by intros [? _].
  - split; [|by intros [_ ?]]. intros Hs. split; [|done].
    intros [= ->]. done.
Qed.

Lemma append_nil (s : string) : "" +:+ s = s.
Proof. reflexivity. Qed.

Lemma append_cons c (t s : string) : String c t +:+ s = String c (t +:+ s).
Proof. reflexivity. Qed.

(** Splitting a key at its first ['#']. *)
Lemma key_text_inj (t t' e e' : string) :
  no_hash t → no_hash t' →
  t +:+ "#" +:+ e = t' +:+ "#" +:+ e' → t = t' ∧ e = e'.
Proof.
  revert t'. induction t as [|c t IH]; intros [|c' t'] Ht Ht' Heq;
    rewrite ?append_cons, ?append_nil in Heq.
  - by injection Heq as ->.
  - apply no_hash_cons in Ht' as [Hc' _].
    injection Heq as <- _. done.
  - apply no_hash_cons in Ht as [Hc _].
    injection Heq as -> _. done.
  - apply no_hash_cons in Ht as [_ Ht]. apply no_hash_cons in Ht' as [_ Ht'].
    injection Heq as -> Heq.
    destruct (IH t' Ht Ht' Heq) as [-> ->]. done.
Qed.

(** X10. When tenant ids contain no ['#'], the deduplication key that
    [persistEventOnce] builds identifies the event: two envelopes get the
    same pk only if they have the same tenant_id and the same event_id. *)
Theorem pk_identifies_event (env env' : Envelope) (σ σ' : World) :
  no_hash (TenantID env) → no_hash (TenantID env') →
  (build_idem env σ).1 !! "pk" = (build_idem env' σ').1 !! "pk" →
  same_event env env'.
Proof.
  intros Ht Ht' Hpk.
  assert (∀ e s, (build_idem e s).1 !! "pk"
                 = Some (S_ (TenantID e +:+ "#" +:+ EventID e))) as Hb.
  { intros e s. unfold build_idem, bind, Now, get_cfg, ret. simpl.
    by case_decide. }
  rewrite !Hb in Hpk. injection Hpk as Hpk.
  destruct (key_text_inj _ _ _ _ Ht Ht' Hpk) as [H1 H2]. by split.
Qed.

(** X11. The shape of the two records.  The deduplication record has the
    attributes pk, created_at and event_type, and ttl when its retention
    is positive; its created_at is a reading of the clock, never the
    envelope's.  The ledger record has the seven fixed attributes, route
    when the envelope has one, reason when one is given and ttl when its
    retention is positive, and nothing else; retries is 0, the payload is
    the encoded payload, and sk and tenant_id_created_at are built from one
    and the same created text: the envelope's created_at, or a reading of
    the clock when that is empty. *)
Theorem record_shapes (env : Envelope) (status reason : string) (σ σ0 : World) :
  dom (build_idem env σ0).1
    = {[ "pk"; "created_at"; "event_type" ]}
      ∪ optional (0 < IdemTTLDays (cfg σ0))%Z "ttl" ∧
  (build_idem env σ0).1 !! "created_at"
    = Some (S_ (Format_RFC3339Nano (time_Now (clock σ0)))) ∧
  (build_idem env σ0).1 !! "event_type" = Some (S_ (EventType env)) ∧
  dom (build_evt env status reason σ).1
    = ledger_attributes ∪ optional (Route env ≠ "") "route"
      ∪ optional (reason ≠ "") "reason"
      ∪ optional (0 < EventsTTLDays (cfg σ))%Z "ttl" ∧
  (∃ created,
     created = (if decide (CreatedAt env = "")
                then Format_RFC3339Nano (time_Now (clock σ))
                else CreatedAt env) ∧
     (build_evt env status reason σ).1 !! "sk"
       = Some (S_ (created +:+ "#" +:+ EventID env)) ∧
     (build_evt env status reason σ).1 !! "tenant_id_created_at"
       = Some (S_ (TenantID env +:+ "#" +:+ created))) ∧
  (build_evt env status reason σ).1 !! "tenant_id" = Some (S_ (TenantID env)) ∧
  (build_evt env status reason σ).1 !! "event_type" = Some (S_ (EventType env)) ∧
  (build_evt env status reason σ).1 !! "retries" = Some (N_ "0") ∧
  (build_evt env status reason σ).1 !! "payload"
    = Some (AttributeValueMemberM (toAttrMap (Payload env))) ∧
  (build_evt env status reason σ).1 !! "route"
    = (if decide (Route env = "") then None else Some (S_ (Route env))).
Proof.
  split_and!.
  1-3: unfold build_idem, optional, bind, Now, get_cfg, ret; simpl;
    case_decide; simpl; try done;
    rewrite ?dom_insert_L, dom_empty_L; set_solver.
  all: unfold build_evt, created_of, optional, ledger_attributes,
    bind, Now, get_cfg, ret; simpl;
    repeat (case_decide; simpl); try done;
    first [ by eexists | rewrite ?dom_insert_L, dom_empty_L; set_solver ].
Qed.

End writer_more.

(** X12. For a retention of 1 to 106751 days and a clock after the epoch,
    the ttl is exactly the Unix time of now plus days times 86400, hence
    in the future; 106751 days is the most a [time.Duration] holds. *)
Theorem expiry_is_now_plus_days (now : Time) (days : Z) :
  (0 ≤ now)%Z → (0 < days ≤ 106751)%Z →
  expiry now days = (Time_Unix now + days * 86400)%Z ∧
  (Time_Unix now < expiry now days)%Z.
Proof.
  intros Hnow Hdays.
  assert (days_Duration days = (days * 86400 * 1000000000)%Z) as Hd.
  { unfold days_Duration, wrap64, Hour.
    rewrite (Z.mod_small (days * 24 + 2 ^ 63)) by lia.
    rewrite Z.mod_small by lia. lia. }
  unfold expiry, Time_Unix, Time_Add. rewrite Hd.
  rewrite Z.div_add by lia. lia.
Qed.

Lemma expiry_is_now_plus_days_witness :
  expiry 1714557600000000000%Z 7
  = (Time_Unix 1714557600000000000%Z + 7 * 86400)%Z ∧
  (Time_Unix 1714557600000000000%Z < expiry 1714557600000000000%Z 7)%Z.
Proof. apply expiry_is_now_plus_days; lia. Defined.

(** ** The handler *)

Section handler_more.
Context `{col : Collaborators}.

(** The world in which [handleRecord] calls the writer. *)
Lemma writer_arguments_frame (env : Envelope) (σ : World) :
  cfg (writer_arguments env σ).2 = cfg σ ∧
  db (writer_arguments env σ).2 = db σ ∧
  clock (writer_arguments env σ).2 = clock σ ∧
  requests (writer_arguments env σ).2 = requests σ ∧
  log (writer_arguments env σ).2 = log σ ++ [Print_env env] ∧
  calls (writer_arguments env σ).2
    = calls σ ++ [Call_validate env;
                  Call_writeEventOnce env (writer_arguments env σ).1.1
                    (writer_arguments env σ).1.2] ∧
  ((writer_arguments env σ).1.1 = "READY" ∨
   (writer_arguments env σ).1.1 = "INVALID").
Proof.
  unfold writer_arguments, bind, ret, print, enter. cbv beta iota zeta.
  match goal with |- context [validate env ?σp] =>
    pose proof (validate_unfold env σp) as HH
  end.
  destruct HH as (σv & HH & _ & ? & ? & ? & ? & ? & Hc).
  match type of HH with _ = (?v, _) => generalize v, HH end.
  intros [valid reason] ->.
  cbv beta iota zeta. simpl in *. split_and!; try done.
  - rewrite Hc. by rewrite <- app_assoc.
  - destruct valid; auto.
Qed.

(** X13. [handleRecord] returns nil exactly when the body decodes, the
    three identity fields are non-empty and the writer returns no error:
    what the validator says about the payload never makes a message fail;
    only a malformed envelope or a failure of the writer does. *)
Theorem handleRecord_succeeds_iff
    (writeEventOnce : Envelope → string → string → M (bool * option error))
    (rec : SQSMessage) (σ : World) :
  (handleRecord writeEventOnce rec σ).1 = None ↔
  ∃ env,
    json_Unmarshal (Body rec) = inl env ∧
    TenantID env ≠ "" ∧ EventID env ≠ "" ∧ EventType env ≠ "" ∧
    (writeEventOnce env (writer_arguments env σ).1.1 (writer_arguments env σ).1.2
       (writer_arguments env σ).2).1.2 = None.
Proof.
  destruct (json_Unmarshal (Body rec)) as [env|e] eqn:Hj.
  2:{ unfold handleRecord. rewrite Hj. split; [done|]. by intros (? & ? & _). }
  destruct (decide (TenantID env = "" ∨ EventID env = "" ∨ EventType env = ""))
    as [Hmiss|Hfull].
  { unfold handleRecord. rewrite Hj. unfold bind, print.
    rewrite decide_True by done. split; [done|].
    intros (env' & [= <-] & ? & ? & ? & _). tauto. }
  rewrite (handleRecord_accepted _ rec env σ Hj) by tauto.
  destruct (writer_arguments env σ) as [[status reason] σ1] eqn:Hargs.
  destruct (writeEventOnce env status reason σ1) as [[written [e|]] σ2] eqn:Hw;
    simpl.
  - split; [done|]. intros (env' & [= <-] & _ & _ & _ & Hnil).
    rewrite Hargs in Hnil. simpl in Hnil. by rewrite Hw in Hnil.
  - split; [|done]. intros _. exists env. rewrite Hargs. simpl. rewrite Hw.
    split_and!; try done; tauto.
Qed.

Lemma persistEventOnce_fault (env : Envelope) (status reason : string)
    (σ : World) (e : error) :
  store_fault (requests σ) = Some e →
  (persistEventOnce env status reason σ).1 = outcome (Some e) ∧
  db (persistEventOnce env status reason σ).2 = db σ.
Proof.
  intros Hf.
  destruct (persist_request_spec env status reason σ)
    as (idem & evt & created & σ1 & Hreq & (_ & _ & Hdb & Hrq & _) & _).
  unfold persistEventOnce, bind, ret. rewrite Hreq.
  unfold dbClient_TransactWriteItems. rewrite Hrq, Hf. simpl. done.
Qed.

(** X14. A failure of the store that is not taken for a duplicate makes
    [handleRecord] fail: for a complete envelope it returns the store's
    error wrapped as "persist error: ...", the error chain still leads to
    the store's error, and nothing has been written, so the message can be
    redelivered. *)
Theorem handleRecord_fails_on_store_error
    (rec : SQSMessage) (env : Envelope) (σ : World) (e : error) :
  json_Unmarshal (Body rec) = inl env →
  TenantID env ≠ "" → EventID env ≠ "" → EventType env ≠ "" →
  store_fault (requests σ) = Some e →
  treated_as_duplicate e = false →
  (handleRecord persistEventOnce rec σ).1
    = Some {| chain := errorString :: chain e;
              Error := "persist error: " +:+ Error e |} ∧
  db (handleRecord persistEventOnce rec σ).2 = db σ.
Proof.
  intros Hj Ht He Hty Hf Hdup.
  rewrite (handleRecord_accepted _ rec env σ Hj Ht He Hty).
  destruct (writer_arguments_frame env σ) as (_ & Hdb & _ & Hrq & _).
  destruct (writer_arguments env σ) as [[status reason] σ1]. simpl in *.
  destruct (persistEventOnce_fault env status reason σ1 e) as [Hr Hdb2].
  { by rewrite Hrq. }
  destruct (persistEventOnce env status reason σ1) as [[written err] σ2].
  simpl in *. unfold outcome in Hr. rewrite Hdup in Hr. injection Hr as -> ->.
  split; [done|]. simpl. congruence.
Qed.

(** X15. A redelivered message is acknowledged without a second write:
    for a complete envelope whose deduplication record exists,
    [handleRecord] with a store that answers returns nil, logs the
    duplicate and leaves the store as it was, whatever the validator says
    this time. *)
Theorem handleRecord_acknowledges_redelivery
    (rec : SQSMessage) (env : Envelope) (σ : World) :
  json_Unmarshal (Body rec) = inl env →
  TenantID env ≠ "" → EventID env ≠ "" → EventType env ≠ "" →
  provisioned σ → well_keyed (db σ) →
  is_Some (dedup σ !! [TenantID env +:+ "#" +:+ EventID env]) →
  store_fault (requests σ) = None →
  (handleRecord persistEventOnce rec σ).1 = None ∧
  db (handleRecord persistEventOnce rec σ).2 = db σ ∧
  log (handleRecord persistEventOnce rec σ).2
    = log σ ++ [Print_env env;
                Log_duplicate (TenantID env) (EventID env) (EventType env)].
Proof.
  intros Hj Ht He Hty Hprov Hwk Hknown Hf.
  rewrite (handleRecord_accepted _ rec env σ Hj Ht He Hty).
  destruct (writer_arguments_frame env σ) as (Hcfg & Hdb & _ & Hrq & Hlog & _).
  destruct (writer_arguments env σ) as [[status reason] σ1]. simpl in *.
  assert (provisioned σ1) as Hprov1 by by eapply provisioned_frame.
  assert (well_keyed (db σ1)) as Hwk1 by by rewrite Hdb.
  destruct (persistEventOnce_known env status reason σ1 Hprov1 Hwk1)
    as (r & σ2 & Hcall & _ & Hnil & Hdb2 & _).
  { unfold dedup. by rewrite Hcfg, Hdb. }
  destruct (persistEventOnce_frame env status reason σ1)
    as (_ & _ & _ & _ & Hlog2 & _).
  rewrite Hcall in Hlog2 |- *. rewrite Hnil by by rewrite Hrq.
  simpl in *. split_and!; try done.
  - congruence.
  - rewrite Hlog2, Hlog. by rewrite <- app_assoc.
Qed.

(** X16. For a complete envelope that is not yet recorded and a store that
    answers, [handleRecord] records the verdict: it returns nil after
    adding one deduplication record and one ledger record whose status is
    READY for a valid payload and INVALID otherwise, with the validator's
    reason when there is one, and it logs the envelope and the outcome. *)
Theorem handleRecord_records_verdict
    (rec : SQSMessage) (env : Envelope) (σ : World) :
  cache_ok σ →
  json_Unmarshal (Body rec) = inl env →
  TenantID env ≠ "" → EventID env ≠ "" → EventType env ≠ "" →
  provisioned σ → well_keyed (db σ) →
  dedup σ !! [TenantID env +:+ "#" +:+ EventID env] = None →
  (∀ created, ledger σ !! [TenantID env; created +:+ "#" +:+ EventID env] = None) →
  store_fault (requests σ) = None →
  ∃ created idem evt,
    (handleRecord persistEventOnce rec σ).1 = None ∧
    dedup (handleRecord persistEventOnce rec σ).2
      = <[[TenantID env +:+ "#" +:+ EventID env] := idem]> (dedup σ) ∧
    ledger (handleRecord persistEventOnce rec σ).2
      = <[[TenantID env; created +:+ "#" +:+ EventID env] := evt]> (ledger σ) ∧
    evt !! "status"
      = Some (S_ (if (verdict env).1 then "READY" else "INVALID")) ∧
    evt !! "reason"
      = (if decide ((verdict env).2 = "") then None
         else Some (S_ (verdict env).2)) ∧
    log (handleRecord persistEventOnce rec σ).2
      = log σ ++ [Print_env env;
                  if (verdict env).1
                  then Log_processed "READY" (TenantID env) (EventID env)
                         (EventType env)
                  else Log_processed_invalid "INVALID" (verdict env).2
                         (TenantID env) (EventID env) (EventType env)].
Proof.
  intros Hok Hj Ht He Hty Hprov Hwk Hdedup Hledger Hf.
  rewrite (handleRecord_accepted _ rec env σ Hj Ht He Hty).
  destruct (writer_arguments_frame env σ) as (Hcfg & Hdb & _ & Hrq & Hlog & _).
  destruct (writer_arguments_spec env σ Hok) as (σ1 & Hargs & _).
  rewrite Hargs in Hcfg, Hdb, Hrq, Hlog |- *. simpl in *.
  set (status := if (verdict env).1 then "READY" else "INVALID") in *.
  set (reason := (verdict env).2) in *.
  assert (provisioned σ1) as Hprov1 by by eapply provisioned_frame.
  assert (well_keyed (db σ1)) as Hwk1 by by rewrite Hdb.
  assert (dedup σ1 = dedup σ) as Hd1 by (unfold dedup; by rewrite Hcfg, Hdb).
  assert (ledger σ1 = ledger σ) as Hl1 by (unfold ledger; by rewrite Hcfg, Hdb).
  destruct (persistEventOnce_cases env status reason σ1 Hprov1 Hwk1)
    as (created & idem & evt & r & σ2 & Hcall & Hcase).
  rewrite Hrq, Hf, Hd1, Hl1 in Hcase.
  rewrite decide_True in Hcase by done.
  destruct Hcase as (-> & Hd & Hl).
  destruct (persistEventOnce_written env status reason σ1 σ2 Hprov1 Hwk1 Hcall)
    as (created' & evt' & _ & Hl' & Hst & Hre).
  rewrite Hl1 in Hl'.
  destruct (persistEventOnce_frame env status reason σ1)
    as (_ & _ & Hcfg2 & _ & Hlog2 & _).
  rewrite Hcall in Hcfg2, Hlog2 |- *. simpl in *.
  exists created', idem, evt'. split_and!; try done.
  - rewrite Hlog2, Hlog, <- app_assoc. simpl.
    subst status. destruct (verdict env).1; by case_decide.
Qed.

(** X17. For a complete envelope [handleRecord] runs the validator once and
    the writer once, in that order, with status READY or INVALID, and the
    writer sends one request to the store: there is no retry inside the
    handler. *)
Theorem handleRecord_calls_each_once
    (rec : SQSMessage) (env : Envelope) (σ : World) :
  json_Unmarshal (Body rec) = inl env →
  TenantID env ≠ "" → EventID env ≠ "" → EventType env ≠ "" →
  ∃ status reason,
    (status = "READY" ∨ status = "INVALID") ∧
    calls (handleRecord persistEventOnce rec σ).2
      = calls σ ++ [Call_validate env; Call_writeEventOnce env status reason] ∧
    requests (handleRecord persistEventOnce rec σ).2 = S (requests σ).
Proof.
  intros Hj Ht He Hty.
  rewrite (handleRecord_accepted _ rec env σ Hj Ht He Hty).
  destruct (writer_arguments_frame env σ) as (_ & _ & _ & Hrq & _ & Hcalls & Hst).
  destruct (writer_arguments env σ) as [[status reason] σ1]. simpl in *.
  destruct (persistEventOnce_frame env status reason σ1)
    as (Hrq2 & _ & _ & _ & _ & Hcalls2 & _).
  destruct (persistEventOnce env status reason σ1) as [[written [e|]] σ2];
    simpl in *; exists status, reason; (split; [done|]);
    (split; [|]); simpl; congruence.
Qed.

(** X18. [handler] on a batch in two parts is [handler] on the first part
    and then, unless that failed, on the second in the world it left. *)
Theorem handler_app
    (writeEventOnce : Envelope → string → string → M (bool * option error))
    (xs ys : list SQSMessage) (σ : World) :
  handler writeEventOnce (xs ++ ys) σ
  = match handler writeEventOnce xs σ with
    | (Some err, σ') => (Some err, σ')
    | (None, σ') => handler writeEventOnce ys σ'
    end.
Proof.
  revert σ. induction xs as [|x xs IH]; intros σ; simpl; [done|].
  unfold bind. destruct (handleRecord writeEventOnce x σ) as [[e|] σ1]; [done|].
  apply IH.
Qed.

(** One message keeps the deployment and every record. *)
Lemma handleRecord_keeps (rec : SQSMessage) (σ : World) :
  provisioned σ → well_keyed (db σ) → cache_ok σ →
  provisioned (handleRecord persistEventOnce rec σ).2 ∧
  well_keyed (db (handleRecord persistEventOnce rec σ).2) ∧
  cache_ok (handleRecord persistEventOnce rec σ).2 ∧
  cfg (handleRecord persistEventOnce rec σ).2 = cfg σ ∧
  dedup σ ⊆ dedup (handleRecord persistEventOnce rec σ).2 ∧
  ledger σ ⊆ ledger (handleRecord persistEventOnce rec σ).2 ∧
  requests σ ≤ requests (handleRecord persistEventOnce rec σ).2 ≤ S (requests σ).
Proof.
  intros Hprov Hwk Hok.
  destruct (json_Unmarshal (Body rec)) as [env|e] eqn:Hj.
  2:{ unfold handleRecord. rewrite Hj. simpl. split_and!; try done; lia. }
  destruct (decide (TenantID env = "" ∨ EventID env = "" ∨ EventType env = ""))
    as [Hmiss|Hfull].
  { unfold handleRecord. rewrite Hj. unfold bind, print.
    rewrite decide_True by done. simpl. split_and!; try done; lia. }
  rewrite (handleRecord_accepted _ rec env σ Hj) by tauto.
  destruct (writer_arguments_spec env σ Hok)
    as (σ1 & -> & Hok1 & Hcfg & Hdb & _ & Hrq).
  set (status := if (verdict env).1 then "READY" else "INVALID").
  set (reason := (verdict env).2).
  assert (provisioned σ1) as Hprov1 by by eapply provisioned_frame.
  assert (well_keyed (db σ1)) as Hwk1 by by rewrite Hdb.
  destruct (persistEventOnce_frame env status reason σ1)
    as (Hrq2 & _ & _ & Hsch2 & _).
  destruct (persistEventOnce env status reason σ1) as [[written err] σ2] eqn:Hcall.
  destruct (persistEventOnce_grows _ _ _ _ _ _ Hprov1 Hwk1 Hcall)
    as (Hprov2 & Hwk2 & Hcfg2 & Hd2 & Hl2).
  simpl in *.
  assert (cache_ok σ2) as Hok2.
  { intros ty s. rewrite Hsch2. apply Hok1. }
  assert (dedup σ ⊆ dedup σ2) as Hd.
  { etrans; [|exact Hd2]. unfold dedup. by rewrite Hcfg, Hdb. }
  assert (ledger σ ⊆ ledger σ2) as Hl.
  { etrans; [|exact Hl2]. unfold ledger. by rewrite Hcfg, Hdb. }
  destruct err as [e|]; simpl.
  - split_and!; try done; try congruence; lia.
  - split_and!; try done; try congruence; lia.
Qed.

(** X19. [handler] with the real writer never loses anything: after a
    batch, whether it failed or not, the tables are still the deployment's,
    every deduplication and ledger record that was there is still there
    unchanged (what earlier messages of a failing batch wrote stays), the
    cache still holds compiled documents only, and at most one request per
    message has gone to the store. *)
Theorem handler_keeps_records (records : list SQSMessage) (σ : World) :
  provisioned σ → well_keyed (db σ) → cache_ok σ →
  provisioned (handler persistEventOnce records σ).2 ∧
  well_keyed (db (handler persistEventOnce records σ).2) ∧
  cache_ok (handler persistEventOnce records σ).2 ∧
  cfg (handler persistEventOnce records σ).2 = cfg σ ∧
  dedup σ ⊆ dedup (handler persistEventOnce records σ).2 ∧
  ledger σ ⊆ ledger (handler persistEventOnce records σ).2 ∧
  requests σ ≤ requests (handler persistEventOnce records σ).2
    ≤ requests σ + length records.
Proof.
  revert σ. induction records as [|rec rest IH]; intros σ Hprov Hwk Hok.
  { simpl. split_and!; try done; lia. }
  destruct (handleRecord_keeps rec σ Hprov Hwk Hok)
    as (Hprov1 & Hwk1 & Hok1 & Hcfg1 & Hd1 & Hl1 & Hrq1).
  simpl. unfold bind.
  destruct (handleRecord persistEventOnce rec σ) as [[e|] σ1]; simpl in *.
  - split_and!; try done; lia.
  - destruct (IH σ1 Hprov1 Hwk1 Hok1) as (? & ? & ? & Hcfg2 & Hd2 & Hl2 & Hrq2).
    split_and!; try done.
    + congruence.
    + by etrans.
    + by etrans.
    + lia.
    + lia.
Qed.

(** One complete message with a store that answers. *)
Lemma handleRecord_complete (rec : SQSMessage) (σ : World) :
  provisioned σ → well_keyed (db σ) → complete rec →
  store_fault (requests σ) = None →
  (handleRecord persistEventOnce rec σ).1 = None ∧
  provisioned (handleRecord persistEventOnce rec σ).2 ∧
  well_keyed (db (handleRecord persistEventOnce rec σ).2) ∧
  requests (handleRecord persistEventOnce rec σ).2 = S (requests σ).
Proof.
  intros Hprov Hwk (env & Hj & Ht & He & Hty) Hf.
  rewrite (handleRecord_accepted _ rec env σ Hj Ht He Hty).
  destruct (writer_arguments_frame env σ) as (Hcfg & Hdb & _ & Hrq & _).
  destruct (writer_arguments env σ) as [[status reason] σ1]. simpl in *.
  assert (provisioned σ1) as Hprov1 by by eapply provisioned_frame.
  assert (well_keyed (db σ1)) as Hwk1 by by rewrite Hdb.
  destruct (persistEventOnce_cases env status reason σ1 Hprov1 Hwk1)
    as (created & idem & evt & r & σ2 & Hcall & Hcase).
  rewrite Hrq, Hf in Hcase.
  destruct (persistEventOnce_frame env status reason σ1) as (Hrq2 & _).
  destruct (persistEventOnce_grows _ _ _ _ _ _ Hprov1 Hwk1 Hcall)
    as (Hprov2 & Hwk2 & _).
  rewrite Hcall in Hrq2 |- *. simpl in Hrq2.
  assert (r.2 = None) as Hnil by (case_decide; by destruct Hcase as [-> _]).
  destruct r as [written err]. simpl in Hnil. subst err. simpl.
  split_and!; try done. congruence.
Qed.

(** X20. A batch fails only for a malformed message or a failing store:
    when every message of the batch is complete and the store answers
    every request, [handler] with the real writer returns nil, one request
    per message has gone to the store, and no failure is logged. *)
Theorem handler_succeeds_when_store_answers
    (records : list SQSMessage) (σ : World) :
  provisioned σ → well_keyed (db σ) →
  store_answers_from (requests σ) →
  Forall complete records →
  (handler persistEventOnce records σ).1 = None ∧
  requests (handler persistEventOnce records σ).2
    = requests σ + length records.
Proof.
  revert σ. induction records as [|rec rest IH]; intros σ Hprov Hwk Hans Hall.
  { simpl. split; [done|lia]. }
  apply Forall_cons in Hall as [Hrec Hrest].
  destruct (handleRecord_complete rec σ Hprov Hwk Hrec)
    as (Hnil & Hprov1 & Hwk1 & Hrq1).
  { apply Hans. lia. }
  simpl. unfold bind.
  destruct (handleRecord persistEventOnce rec σ) as [[e|] σ1]; simpl in *;
    [done|].
  destruct (IH σ1 Hprov1 Hwk1) as [IH1 IH2]; [|done|].
  { intros m Hm. apply Hans. lia. }
  split; [done|]. lia.
Qed.

End handler_more.

(** ** The scenarios, continued *)

Lemma writer_pairs_records_witness :
  size (dedup world_AA) + size (ledger (fresh_world no_fault))
    = size (ledger world_AA) + size (dedup (fresh_world no_fault)) ∧
  size (ledger (fresh_world no_fault)) ≤ size (ledger world_AA)
    ≤ size (ledger (fresh_world no_fault)) + length [envelope_A; envelope_A].
Proof.
  apply (writer_pairs_records (col := demo no_fault) (fresh_world no_fault)
           world_AA [envelope_A; envelope_A]).
  - apply (later_call _ envelope_A "READY" "" (true, None) world_A).
    + apply run_result. by vm_compute.
    + apply (later_call _ envelope_A "INVALID" "retry" (false, None) world_AA).
      * apply (run_result (persistEventOnce envelope_A "INVALID" "retry")
                 world_A (false, None)).
        by vm_compute.
      * apply later_now.
  - apply fresh_world_provisioned.
  - apply demo_db_well_keyed.
Defined.


Lemma pk_identifies_event_witness : same_event envelope_A envelope_A_again.
Proof.
  apply (pk_identifies_event (col := demo no_fault) envelope_A envelope_A_again
           (fresh_world no_fault) world_A).
  - reflexivity.
  - reflexivity.
  - reflexivity.
Defined.

Lemma handleRecord_fails_on_store_error_witness :
  (handleRecord (col := demo throttling) persistEventOnce {| Body := body_A |}
     (fresh_world throttling)).1
    = Some {| chain := errorString :: chain throttled;
              Error := "persist error: " +:+ Error throttled |} ∧
  db (handleRecord (col := demo throttling) persistEventOnce {| Body := body_A |}
        (fresh_world throttling)).2 = db (fresh_world throttling).
Proof.
  apply (handleRecord_fails_on_store_error (col := demo throttling)
           {| Body := body_A |} envelope_A (fresh_world throttling) throttled).
  - reflexivity.
  - done.
  - done.
  - done.
  - reflexivity.
  - by vm_compute.
Defined.

Lemma world_A_provisioned : provisioned world_A ∧ well_keyed (db world_A).
Proof.
  destruct (persistEventOnce_grows (col := demo no_fault) envelope_A "READY" ""
              (fresh_world no_fault) world_A (true, None)) as (? & ? & _).
  - apply fresh_world_provisioned.
  - apply demo_db_well_keyed.
  - apply run_result. by vm_compute.
  - done.
Qed.

Lemma handleRecord_acknowledges_redelivery_witness :
  (handleRecord (col := demo no_fault) persistEventOnce {| Body := body_A |}
     world_A).1 = None ∧
  db (handleRecord (col := demo no_fault) persistEventOnce {| Body := body_A |}
        world_A).2 = db world_A ∧
  log (handleRecord (col := demo no_fault) persistEventOnce {| Body := body_A |}
         world_A).2
    = log world_A ++ [Print_env envelope_A;
                      Log_duplicate (TenantID envelope_A) (EventID envelope_A)
                        (EventType envelope_A)].
Proof.
  apply (handleRecord_acknowledges_redelivery (col := demo no_fault)
           {| Body := body_A |} envelope_A world_A).
  - reflexivity.
  - done.
  - done.
  - done.
  - apply world_A_provisioned.
  - apply world_A_provisioned.
  - apply is_Some_alt. by vm_compute.
  - reflexivity.
Defined.

Lemma handleRecord_records_verdict_witness :
  ∃ created idem evt,
    (handleRecord (col := demo no_fault) persistEventOnce {| Body := body_B |}
       (fresh_world no_fault)).1 = None ∧
    dedup (handleRecord (col := demo no_fault) persistEventOnce
             {| Body := body_B |} (fresh_world no_fault)).2
      = <[[TenantID envelope_B +:+ "#" +:+ EventID envelope_B] := idem]>
          (dedup (fresh_world no_fault)) ∧
    ledger (handleRecord (col := demo no_fault) persistEventOnce
              {| Body := body_B |} (fresh_world no_fault)).2
      = <[[TenantID envelope_B; created +:+ "#" +:+ EventID envelope_B] := evt]>
          (ledger (fresh_world no_fault)) ∧
    evt !! "status"
      = Some (S_ (if (verdict (col := demo no_fault) envelope_B).1
                  then "READY" else "INVALID")) ∧
    evt !! "reason"
      = (if decide ((verdict (col := demo no_fault) envelope_B).2 = "")
         then None
         else Some (S_ (verdict (col := demo no_fault) envelope_B).2)) ∧
    log (handleRecord (col := demo no_fault) persistEventOnce
           {| Body := body_B |} (fresh_world no_fault)).2
      = log (fresh_world no_fault)
        ++ [Print_env envelope_B;
            if (verdict (col := demo no_fault) envelope_B).1
            then Log_processed "READY" (TenantID envelope_B) (EventID envelope_B)
                   (EventType envelope_B)
            else Log_processed_invalid "INVALID"
                   (verdict (col := demo no_fault) envelope_B).2
                   (TenantID envelope_B) (EventID envelope_B)
                   (EventType envelope_B)].
Proof.
  apply (handleRecord_records_verdict (col := demo no_fault)
           {| Body := body_B |} envelope_B (fresh_world no_fault)).
  - apply fresh_world_cache_ok.
  - reflexivity.
  - done.
  - done.
  - done.
  - apply fresh_world_provisioned.
  - apply demo_db_well_keyed.
  - reflexivity.
  - intros created. reflexivity.
  - reflexivity.
Defined.

Lemma handleRecord_calls_each_once_witness :
  ∃ status reason,
    (status = "READY" ∨ status = "INVALID") ∧
    calls (handleRecord (col := demo throttling) persistEventOnce
             {| Body := body_B |} (fresh_world throttling)).2
      = calls (fresh_world throttling)
        ++ [Call_validate envelope_B; Call_writeEventOnce envelope_B status reason] ∧
    requests (handleRecord (col := demo throttling) persistEventOnce
                {| Body := body_B |} (fresh_world throttling)).2
      = S (requests (fresh_world throttling)).
Proof.
  apply (handleRecord_calls_each_once (col := demo throttling)
           {| Body := body_B |} envelope_B (fresh_world throttling)).
  - reflexivity.
  - done.
  - done.
  - done.
Defined.

Lemma handler_keeps_records_witness :
  provisioned (handler (col := demo no_fault) persistEventOnce
                 [{| Body := body_A |}; {| Body := body_M |}] world_A).2 ∧
  ledger world_A
    ⊆ ledger (handler (col := demo no_fault) persistEventOnce
                [{| Body := body_A |}; {| Body := body_M |}] world_A).2.
Proof.
  destruct (handler_keeps_records (col := demo no_fault)
              [{| Body := body_A |}; {| Body := body_M |}] world_A)
    as (Hprov & _ & _ & _ & _ & Hl & _).
  - apply world_A_provisioned.
  - apply world_A_provisioned.
  - intros ty s Hs. done.
  - split; [exact Hprov | exact Hl].
Defined.

Lemma handler_succeeds_when_store_answers_witness :
  (handler (col := demo no_fault) persistEventOnce
     [{| Body := body_A |}; {| Body := body_D |}; {| Body := body_A |}]
     (fresh_world no_fault)).1 = None ∧
  requests (handler (col := demo no_fault) persistEventOnce
     [{| Body := body_A |}; {| Body := body_D |}; {| Body := body_A |}]
     (fresh_world no_fault)).2
    = requests (fresh_world no_fault)
      + length [{| Body := body_A |}; {| Body := body_D |}; {| Body := body_A |}].
Proof.
  apply (handler_succeeds_when_store_answers (col := demo no_fault)
           [{| Body := body_A |}; {| Body := body_D |}; {| Body := body_A |}]
           (fresh_world no_fault)).
  - apply fresh_world_provisioned.
  - apply demo_db_well_keyed.
  - intros m _. reflexivity.
  - repeat apply Forall_cons_2; [| | |apply Forall_nil_2].
    + exists envelope_A. by split_and!.
    + exists envelope_D. by split_and!.
    + exists envelope_A. by split_and!.
Defined.

(** ** The seeder *)

Module SeederFacts.
Import Seeder.

Section seeder_facts.
Context `{svc : Services}.

Lemma sendEvent_spec (queueURL tenant eventType : string)
    (payload : gmap string any) (σ : World) :
  sendEvent queueURL tenant eventType payload σ
  = (send_fault (sends σ),
     {| uuids := S (uuids σ); clock := S (clock σ); sends := S (sends σ);
        queue := queue σ
          ++ match send_fault (sends σ) with
             | Some _ => []
             | None =>
                 [{| QueueUrl := queueURL;
                       MessageBody := json_Marshal
                         {[ "tenant_id" := string_value tenant;
                            "event_id" := string_value (uuid_NewString (uuids σ));
                            "event_type" := string_value eventType;
                            "route" := string_value "default";
                            "payload" := map_value payload;
                            "created_at" := string_value
                              (Format_RFC3339 (time_Now (clock σ))) ]};
                       MessageGroupId := tenant;
                       MessageDeduplicationId := uuid_NewString (uuids σ) |}]
             end;
        log := log σ |}).
Proof.
  unfold sendEvent, bind, uuid_New, now_RFC3339, sqsc_SendMessage. simpl.
  destruct (send_fault (sends σ)); [by rewrite app_nil_r|done].
Qed.

Ltac publisher :=
  unfold attempt;
  match goal with |- context [hasSchema ?file] => destruct (hasSchema file) end;
  simpl;
  [ unfold bind, uuid_New, now_RFC3339; cbv beta iota zeta;
    rewrite sendEvent_spec; simpl;
    split_and!; [done | done | done | lia |];
    lazymatch goal with
    | |- context [ @cons SendMessageInput ?m [] ] => exists m
    end;
    split; [|split; reflexivity];
    unfold carries_envelope; simpl; split_and!; [done | done |];
    do 4 eexists; split_and!; [reflexivity | reflexivity |];
    first [ by apply (list_elem_of_lookup_2 _ 0)
          | by apply (list_elem_of_lookup_2 _ 1)
          | by apply (list_elem_of_lookup_2 _ 2)
          | by apply (list_elem_of_lookup_2 _ 3)
          | by apply (list_elem_of_lookup_2 _ 4) ]
  | unfold bind, log_Printf, ret; simpl;
    split_and!; try done; rewrite length_app; simpl; lia ].

Lemma publishUserCreatedSample_attempt (queueURL : string) (σ : World) :
  attempt queueURL "user.created.json" σ
    (publishUserCreatedSample queueURL σ).1 (publishUserCreatedSample queueURL σ).2.
Proof. unfold publishUserCreatedSample. publisher. Qed.

Lemma publishMonitoringSample_attempt (queueURL : string) (σ : World) :
  attempt queueURL "monitoring.json" σ
    (publishMonitoringSample queueURL σ).1 (publishMonitoringSample queueURL σ).2.
Proof. unfold publishMonitoringSample. publisher. Qed.

Lemma publishUserApplicationsSample_attempt (queueURL : string) (σ : World) :
  attempt queueURL "user.applications.json" σ
    (publishUserApplicationsSample queueURL σ).1
    (publishUserApplicationsSample queueURL σ).2.
Proof. unfold publishUserApplicationsSample. publisher. Qed.

Lemma publishTransactionAuthorizersSample_attempt (queueURL : string) (σ : World) :
  attempt queueURL "transaction.authorizers.json" σ
    (publishTransactionAuthorizersSample queueURL σ).1
    (publishTransactionAuthorizersSample queueURL σ).2.
Proof. unfold publishTransactionAuthorizersSample. publisher. Qed.

Lemma publishIntegrationsSample_attempt (queueURL : string) (σ : World) :
  attempt queueURL "integrations.json" σ
    (publishIntegrationsSample queueURL σ).1 (publishIntegrationsSample queueURL σ).2.
Proof. unfold publishIntegrationsSample. publisher. Qed.

Lemma send_errors_S (first n : nat) :
  send_errors first (S n)
  = match send_fault first with Some e => [e] | None => [] end
    ++ send_errors (S first) n.
Proof. unfold send_errors. simpl. by destruct (send_fault first). Qed.

(** Any list of publishers, each doing what [attempt] says for its file. *)
Lemma attempt_all_spec (queueURL : string) (files : list string)
    (publishers : list (M (option error))) :
  Forall2 (λ file publish,
             ∀ σ, attempt queueURL file σ (publish σ).1 (publish σ).2)
          files publishers →
  ∀ (firstErr : option error) (σ : World),
  (attempt_all publishers firstErr σ).1
    = match firstErr with
      | Some e => Some e
      | None =>
          head (send_errors (sends σ)
                  (length (filter (λ name, hasSchema name = true) files)))
      end ∧
  sends (attempt_all publishers firstErr σ).2
    = sends σ + length (filter (λ name, hasSchema name = true) files) ∧
  length (log (attempt_all publishers firstErr σ).2)
    + length (filter (λ name, hasSchema name = true) files)
    = length (log σ) + length files ∧
  uuids σ ≤ uuids (attempt_all publishers firstErr σ).2 ∧
  ∃ new draws,
    queue (attempt_all publishers firstErr σ).2 = queue σ ++ new ∧
    Forall (carries_envelope queueURL) new ∧
    length new
      + length (send_errors (sends σ)
                  (length (filter (λ name, hasSchema name = true) files)))
      = length (filter (λ name, hasSchema name = true) files) ∧
    MessageDeduplicationId <$> new = uuid_NewString <$> draws ∧
    NoDup draws ∧
    Forall (λ k, uuids σ ≤ k < uuids (attempt_all publishers firstErr σ).2) draws.
Proof.
  induction 1 as [|file publish files publishers Hstep _ IH]; intros firstErr σ.
  { simpl. split_and!; try done.
    - by destruct firstErr.
    - exists [], []. rewrite app_nil_r. split_and!; try done; constructor. }
  simpl. unfold bind.
  specialize (Hstep σ). destruct (publish σ) as [r σ1]. simpl in Hstep.
  specialize (IH (setFirstErr firstErr r) σ1).
  destruct IH as (Hres & Hsends & Hlog & Huu & new & draws & Hq & Hall & Hlen
                  & Hids & Hnodup & Hbound).
  unfold attempt in Hstep. rewrite filter_cons.
  destruct (hasSchema file) eqn:Hfile.
  - destruct Hstep as (-> & Hs1 & Hl1 & Hu1 & msg & Hmsg & Hid & Hq1).
    rewrite decide_True by done. simpl length. rewrite send_errors_S.
    rewrite Hs1 in Hres, Hsends, Hlen. rewrite Hl1 in Hlog.
    split_and!.
    + rewrite Hres. destruct firstErr as [e0|]; [done|].
      by destruct (send_fault (sends σ)).
    + lia.
    + lia.
    + lia.
    + destruct (send_fault (sends σ)) as [e|] eqn:Hfault.
      * exists new, draws. rewrite Hq, Hq1, app_nil_r. split_and!; try done.
        -- simpl. lia.
        -- eapply Forall_impl; [exact Hbound|]. simpl. intros k ?. lia.
      * exists (msg :: new), (pred (uuids σ1) :: draws).
        rewrite Hq, Hq1, <- app_assoc. split_and!; try done.
        -- by constructor.
        -- simpl. lia.
        -- rewrite !fmap_cons. by rewrite Hid, Hids.
        -- constructor; [|done].
           intros Hin. eapply Forall_forall in Hbound; [|exact Hin]. lia.
        -- constructor; [lia|].
           eapply Forall_impl; [exact Hbound|]. simpl. intros k ?. lia.
  - destruct Hstep as (-> & Hs1 & Hq1 & Hu1 & Hl1).
    rewrite decide_False by done.
    rewrite Hs1 in Hres, Hsends, Hlen. rewrite Hu1 in Huu, Hbound.
    split_and!.
    + rewrite Hres. by destruct firstErr.
    + done.
    + simpl. lia.
    + done.
    + exists new, draws. rewrite Hq, Hq1. by split_and!.
Qed.

Lemma publishAllSamples_attempt_all (queueURL : string) :
  publishAllSamples queueURL
  = attempt_all [publishUserCreatedSample queueURL;
                 publishMonitoringSample queueURL;
                 publishUserApplicationsSample queueURL;
                 publishTransactionAuthorizersSample queueURL;
                 publishIntegrationsSample queueURL] None.
Proof. reflexivity. Qed.

Lemma publishers_attempt (queueURL : string) :
  Forall2 (λ file publish,
             ∀ σ, attempt queueURL file σ (publish σ).1 (publish σ).2)
    sample_files
    [publishUserCreatedSample queueURL;
     publishMonitoringSample queueURL;
     publishUserApplicationsSample queueURL;
     publishTransactionAuthorizersSample queueURL;
     publishIntegrationsSample queueURL].
Proof.
  repeat constructor.
  - apply publishUserCreatedSample_attempt.
  - apply publishMonitoringSample_attempt.
  - apply publishUserApplicationsSample_attempt.
  - apply publishTransactionAuthorizersSample_attempt.
  - apply publishIntegrationsSample_attempt.
Qed.

Lemma publishAllSamples_spec (queueURL : string) (σ : World) :
  (publishAllSamples queueURL σ).1
    = head (send_errors (sends σ) (length embedded)) ∧
  sends (publishAllSamples queueURL σ).2 = sends σ + length embedded ∧
  length (log (publishAllSamples queueURL σ).2) + length embedded
    = length (log σ) + 5 ∧
  ∃ new draws,
    queue (publishAllSamples queueURL σ).2 = queue σ ++ new ∧
    Forall (carries_envelope queueURL) new ∧
    length new + length (send_errors (sends σ) (length embedded))
      = length embedded ∧
    MessageDeduplicationId <$> new = uuid_NewString <$> draws ∧
    NoDup draws.
Proof.
  rewrite publishAllSamples_attempt_all.
  destruct (attempt_all_spec queueURL _ _ (publishers_attempt queueURL) None σ)
    as (Hres & Hsends & Hlog & _ & new & draws & Hq & Hall & Hlen & Hids & Hnodup & _).
  split_and!; try done. by exists new, draws.
Qed.

(** X21. [publishAllSamples] attempts every sample whose schema file is
    embedded, whatever happened to the earlier ones: it sends one request
    per embedded file, returns the error of the first request that failed
    (nil when none did), leaves in the queue one message per request that
    succeeded, and logs one line per file that is missing. *)
Theorem publishAllSamples_attempts_every_sample (queueURL : string) (σ : World) :
  (publishAllSamples queueURL σ).1
    = head (send_errors (sends σ) (length embedded)) ∧
  sends (publishAllSamples queueURL σ).2 = sends σ + length embedded ∧
  length (queue (publishAllSamples queueURL σ).2)
    + length (send_errors (sends σ) (length embedded))
    = length (queue σ) + length embedded ∧
  length (log (publishAllSamples queueURL σ).2) + length embedded
    = length (log σ) + 5.
Proof.
  destruct (publishAllSamples_spec queueURL σ)
    as (Hres & Hsends & Hlog & new & draws & Hq & _ & Hlen & _).
  split_and!; try done. rewrite Hq, length_app. lia.
Qed.

(** X22. Every message [publishAllSamples] adds to the queue goes to the
    given queue with message group "tenant-a", and its body is the encoding
    of an envelope of six keys whose tenant is the message group, whose
    event id is the message's deduplication id and whose route is
    "default"; the deduplication ids of one run come from pairwise
    different draws of the UUID generator. *)
Theorem publishAllSamples_messages (queueURL : string) (σ : World) :
  ∃ new draws,
    queue (publishAllSamples queueURL σ).2 = queue σ ++ new ∧
    Forall (carries_envelope queueURL) new ∧
    MessageDeduplicationId <$> new = uuid_NewString <$> draws ∧
    NoDup draws.
Proof.
  destruct (publishAllSamples_spec queueURL σ)
    as (_ & _ & _ & new & draws & Hq & Hall & _ & Hids & Hnodup).
  by exists new, draws.
Qed.

(** X23. The seeder's [handler] reports success exactly when the AWS
    configuration loads, the queue "<project>-events.fifo" is found and no
    request to SQS fails; the response then says "Seed Lambda completed"
    and the queue holds one more message per embedded schema file.  In
    every other case the response is empty. *)
Theorem seeder_handler_succeeds_iff (σ : World) :
  ((handler σ).1.2 = None ↔
   LoadDefaultConfig (getEnv "AWS_REGION" "us-east-1") = None ∧
   (∃ queueURL,
      GetQueueUrl (getEnv "PROJECT" "event-processor" +:+ "-events.fifo")
        = inl queueURL) ∧
   send_errors (sends σ) (length embedded) = []) ∧
  ((handler σ).1.2 = None →
   Message (handler σ).1.1 = "Seed Lambda completed" ∧
   length (queue (handler σ).2) = length (queue σ) + length embedded) ∧
  ((handler σ).1.2 ≠ None → Message (handler σ).1.1 = "").
Proof.
  unfold handler. cbv zeta.
  destruct (LoadDefaultConfig _) as [e|].
  { simpl. split_and!; [split; [done|by intros (? & _)] | done | done]. }
  destruct (GetQueueUrl _) as [queueURL|e].
  2:{ simpl. split_and!; [split; [done|by intros (_ & (? & ?) & _)] | done | done]. }
  unfold bind.
  destruct (publishAllSamples_spec queueURL σ)
    as (Hres & _ & _ & new & draws & Hq & _ & Hlen & _).
  destruct (publishAllSamples queueURL σ) as [[e|] σ1]; simpl in *.
  - split_and!; [split; [done|] | done | done].
    intros (_ & _ & Hnone). by rewrite Hnone in Hres.
  - assert (send_errors (sends σ) (length embedded) = []) as Hnone.
    { destruct (send_errors _ _) eqn:Herrs; [done|].
      (* the first error would have been returned *)
      exfalso. clear -Hres Herrs. unfold send_errors in *.
      revert Hres Herrs. generalize (sends σ).
      induction (length embedded) as [|n IH]; intros first Hres Herrs; [done|].
      simpl in *. destruct (send_fault first); [done|]. by eapply IH. }
    split_and!; [split; [|done] | | done].
    + intros _. split_and!; [done|by eexists|done].
    + intros _. split; [done|]. rewrite Hq, length_app.
      rewrite Hnone in Hlen. simpl in Hlen. lia.
Qed.

End seeder_facts.

(** A run with two of the five schema files embedded and a queue that
    takes every message. *)
Example seeder_scenario :
  (handler (svc := demo no_fault) start).1
    = ({| Message := "Seed Lambda completed" |}, None) ∧
  MessageDeduplicationId <$> queue (handler (svc := demo no_fault) start).2
    = ["uuid-1"; "uuid-3"] ∧
  QueueUrl <$> queue (handler (svc := demo no_fault) start).2
    = ["https://sqs.us-east-1.amazonaws.com/1/demo-events.fifo";
       "https://sqs.us-east-1.amazonaws.com/1/demo-events.fifo"] ∧
  length (log (handler (svc := demo no_fault) start).2) = 3.
Proof. split_and!; by vm_compute. Qed.

(** The same run with a queue that refuses the first message: the run
    fails, and the second message is in the queue all the same. *)
Example seeder_scenario_partial :
  (handler (svc := demo (λ n, if decide (n = 0) then Some throttled else None))
     start).1 = ({| Message := "" |}, Some throttled) ∧
  MessageDeduplicationId
    <$> queue (handler (svc := demo (λ n, if decide (n = 0) then Some throttled
                                          else None)) start).2
    = ["uuid-3"].
Proof. split; by vm_compute. Qed.

End SeederFacts.

End Processor.
